(** * Casino++ Blackjack: the round-resolution engine

    A shallow embedding of [Card.cpp], [Hand.cpp] and [Blackjack.cpp]:
    cards as the two strings the class stores, hands as the vector of
    cards, the bankroll as an exact rational standing for the [double]
    the class stores, console input as a list of whitespace-separated
    tokens and [rand()] as a stream of naturals. *)

From Stdlib Require Import ZArith QArith List Bool Ascii String Lia Lqa.
From Stdlib Require Import Permutation.
From Equations Require Import Equations.
Import ListNotations.

Local Open Scope string_scope.
Local Open Scope list_scope.
Local Open Scope Z_scope.

(** ** Machine integers *)

Definition INT_MAX : Z := 2147483647.
Definition INT_MIN : Z := -2147483648.
Definition UINT_RANGE : Z := 4294967296.

(** Conversion of an [int] to [unsigned int]: reduction modulo 2^32. *)
Definition to_unsigned (z : Z) : Z := z mod UINT_RANGE.

(** Conversion of an [unsigned int] back to [int]
    ([int dealerSum = sumOptimal(dealerHand)]). *)
Definition to_signed (z : Z) : Z :=
  if z <=? INT_MAX then z else z - UINT_RANGE.

(** ** Results of code that can stop the program *)

(** [Halt] is an exception nothing catches, which ends the program.
    [Undefined] is an operation the language gives no meaning to.
    [Blocked] is a read from the console with no token left.
    [Unfinished] is a loop that is still running when the step budget
    given to the model is used up. *)
Inductive Run (A : Type) : Type :=
| Ret (a : A)
| Halt
| Undefined
| Blocked
| Unfinished.
Arguments Ret {A} a.
Arguments Halt {A}.
Arguments Undefined {A}.
Arguments Blocked {A}.
Arguments Unfinished {A}.

(** The way a computation that gave no value stopped, at another type. *)
Definition stopped {A B : Type} (m : Run A) : Run B :=
  match m with
  | Ret _ => Unfinished
  | Halt => Halt
  | Undefined => Undefined
  | Blocked => Blocked
  | Unfinished => Unfinished
  end.

Definition bindRun {A B : Type} (m : Run A) (k : A -> Run B) : Run B :=
  match m with
  | Ret a => k a
  | _ => stopped m
  end.

Definition liftOpt {A : Type} (o : option A) : Run A :=
  match o with
  | Some a => Ret a
  | None => Halt
  end.

Notation "' p <- m ;; k" := (bindRun m (fun p => k))
  (at level 61, p pattern, m at next level, right associativity).
Notation "x <- m ;; k" := (bindRun m (fun x => k))
  (at level 61, m at next level, right associativity).

(** ** Character and string helpers of the C++ library *)

Definition isdigit (c : ascii) : bool :=
  let n := Z.of_N (N_of_ascii c) in (48 <=? n) && (n <=? 57).

(** [isspace] in the C locale: space, \t, \n, \v, \f, \r. *)
Definition isspace (c : ascii) : bool :=
  let n := Z.of_N (N_of_ascii c) in (n =? 32) || ((9 <=? n) && (n <=? 13)).

Definition digitValue (c : ascii) : Z := Z.of_N (N_of_ascii c) - 48.

Fixpoint skipSpaces (s : string) : string :=
  match s with
  | String c r => if isspace c then skipSpaces r else s
  | EmptyString => s
  end.

(** The digits at the front of [s], read in base 10 onto [acc]; the
    boolean tells whether at least one digit was read. *)
Fixpoint readDigits (s : string) (acc : Z) (seen : bool) : Z * bool :=
  match s with
  | String c r =>
      if isdigit c then readDigits r (10 * acc + digitValue c) true
      else (acc, seen)
  | EmptyString => (acc, seen)
  end.

Inductive StoiResult : Type :=
| Parsed (v : Z)
| invalid_argument
| out_of_range.

(** [std::stoi(s)]: leading white space, an optional sign, then decimal
    digits; throws [invalid_argument] when there is no digit and
    [out_of_range] when the value does not fit an [int]. *)
Definition stoi (s : string) : StoiResult :=
  let t := skipSpaces s in
  let '(neg, body) :=
    match t with
    | String "-" r => (true, r)
    | String "+" r => (false, r)
    | _ => (false, t)
    end in
  let '(v, seen) := readDigits body 0 false in
  if negb seen then invalid_argument
  else
    let v' := if neg then - v else v in
    if (INT_MIN <=? v') && (v' <=? INT_MAX) then Parsed v' else out_of_range.

(** [std::to_string] on the values [rand() % 13 + 1] can take. *)
Definition digitChar (d : Z) : ascii := ascii_of_N (Z.to_N (48 + d)).

Definition to_string (v : Z) : string :=
  if v <? 10 then String (digitChar v) EmptyString
  else String (digitChar (v / 10)) (String (digitChar (v mod 10)) EmptyString).

(** [operator<], [operator>], [operator<=], [operator>=] of [std::string]:
    lexicographic on the character codes. *)
Definition str_lt (a b : string) : bool := String.ltb a b.
Definition str_gt (a b : string) : bool := String.ltb b a.
Definition str_le (a b : string) : bool := String.leb a b.
Definition str_ge (a b : string) : bool := String.leb b a.
Definition str_ne (a b : string) : bool := negb (String.eqb a b).

(** ** Card *)

Record Card : Type := mkCard {
  faceValueString : string;
  symbolString : string
}.

(** The random source: the successive results of [rand()], each a
    non-negative number. A position in the stream is threaded through. *)
Definition Rng : Type := nat -> N.

Definition generateRandomCardValueString (r : N) : string :=
  let randomValue := Z.rem (Z.of_N r) 13 + 1 in
  if randomValue =? 1 then "A"
  else if randomValue =? 11 then "J"
  else if randomValue =? 12 then "Q"
  else if randomValue =? 13 then "K"
  else to_string randomValue.

Definition generateRandomCardSymbolString (r : N) : string :=
  let randomNumber := Z.rem (Z.of_N r) 4 in
  if randomNumber =? 0 then "hearts"
  else if randomNumber =? 2 then "diamonds"
  else if randomNumber =? 3 then "clubs"
  else "spades".

(** The two ways a checked construction ends the program ([exit(-1)]
    after a message on [cerr]). *)
Inductive CardError : Type :=
| InvalidRank   (* "Error: card value is not 2-10 or A, J, Q or K" *)
| InvalidSuit.  (* the message of errorCheckCardSymbol *)

(** The condition of [errorCheckCardValue], as C++ parses it: [&&] binds
    tighter than [||]. When it holds the program prints the message and
    exits. *)
Definition cardValueRejected (s : string) : bool :=
  str_lt s "2" ||
  (str_gt s "9" &&
   (str_ne s "10" && str_ne s "J" && str_ne s "Q" && str_ne s "K" &&
    str_ne s "A")).

Definition errorCheckCardValue (s : string) : CardError + unit :=
  if cardValueRejected s then inl InvalidRank else inr tt.

Definition cardSymbolRejected (s : string) : bool :=
  str_ne s "hearts" && str_ne s "diamonds" && str_ne s "clubs" &&
  str_ne s "spades".

Definition errorCheckCardSymbol (s : string) : CardError + unit :=
  if cardSymbolRejected s then inl InvalidSuit else inr tt.

(** [Card::Card()]: two calls of [rand()], the value first. *)
Definition Card_random (rng : Rng) (pos : nat) : Card * nat :=
  (mkCard (generateRandomCardValueString (rng pos))
          (generateRandomCardSymbolString (rng (S pos))),
   S (S pos)).

(** [Card::Card(string, string)]. *)
Definition Card_create (faceValueString_ symbolString_ : string)
  : CardError + Card :=
  match errorCheckCardValue faceValueString_ with
  | inl e => inl e
  | inr _ =>
      match errorCheckCardSymbol symbolString_ with
      | inl e => inl e
      | inr _ => inr (mkCard faceValueString_ symbolString_)
      end
  end.

(** [Card::getGameValue]; [None] when [stoi] throws. *)
Definition getGameValue (c : Card) : option Z :=
  let f := faceValueString c in
  if str_ge f "2" && str_le f "9" then
    match stoi f with
    | Parsed v => Some v
    | _ => None
    end
  else if String.eqb f "10" || String.eqb f "J" || String.eqb f "Q" ||
          String.eqb f "K" then Some 10
  else if String.eqb f "A" then Some 11
  else Some 0.

Definition isAce (c : Card) : bool :=
  if String.eqb (faceValueString c) "A" then true else false.

(** ** Hand *)

Definition Hand : Type := list Card.

Definition addCard (h : Hand) (cardToAdd : Card) : Hand := h ++ [cardToAdd].

Fixpoint addRandomCards_loop (n : nat) (rng : Rng) (pos : nat) (h : Hand)
  : Hand * nat :=
  match n with
  | O => (h, pos)
  | S n' =>
      let '(c, pos') := Card_random rng pos in
      addRandomCards_loop n' rng pos' (h ++ [c])
  end.

(** [Hand::addRandomCards]: the loop runs [amountOfCardsToAdd] times, not
    at all for a negative amount. *)
Definition addRandomCards (amountOfCardsToAdd : Z) (rng : Rng) (pos : nat)
  (h : Hand) : Hand * nat :=
  addRandomCards_loop (Z.to_nat amountOfCardsToAdd) rng pos h.

(** [Hand::removeLastCard] is a bare [pop_back()], which the language
    leaves undefined on an empty vector. *)
Definition removeLastCard (h : Hand) : Run Hand :=
  match h with
  | [] => Undefined
  | _ :: _ => Ret (removelast h)
  end.

Definition emptyHand (h : Hand) : Hand := [].

Definition getSize (h : Hand) : Z := Z.of_nat (List.length h).

(** [Hand::getCardAtIndex] is a bare [cardsInHand[index]]. *)
Definition getCardAtIndex (h : Hand) (index : Z) : option Card :=
  if index <? 0 then None else nth_error h (Z.to_nat index).

(** ** The optimal sum of a hand *)

(** The [for] loop of [sumOptimal] over the cards left: the running [sum]
    and [numberOfAcesInHand]. [None] when [getGameValue] throws. *)
Fixpoint sumCards (cards : list Card) (sum numberOfAcesInHand : Z)
  : option (Z * Z) :=
  match cards with
  | [] => Some (sum, numberOfAcesInHand)
  | cardToSum :: rest =>
      match getGameValue cardToSum with
      | None => None
      | Some v =>
          sumCards rest (sum + v)
            (if isAce cardToSum then numberOfAcesInHand + 1
             else numberOfAcesInHand)
      end
  end.

Definition inspect {A : Type} (a : A) : {b : A | a = b} :=
  exist _ a eq_refl.

(** The [while] loop of [sumOptimal]. *)
Equations? reduceAces (sum numberOfAcesInHand : Z) : Z
  by wf (Z.to_nat numberOfAcesInHand) lt :=
  reduceAces sum aces
    with inspect ((sum >? 21) && (aces >? 0)) => {
    | exist _ true _ := reduceAces (sum - 10) (aces - 1);
    | exist _ false _ := sum }.
Proof.
  apply andb_prop in e. destruct e as [_ e]. lia.
Qed.

(** [Blackjack::sumOptimal]. The running sum is an [int], for which the
    language defines no overflow: the sum is taken in [Z], and the
    properties below are stated for hands whose nominal total is at most
    [INT_MAX]. The result leaves as an [unsigned int]. *)
Definition sumOptimal (handToSum : Hand) : option Z :=
  match sumCards handToSum 0 0 with
  | None => None
  | Some (sum, numberOfAcesInHand) =>
      Some (to_unsigned (reduceAces sum numberOfAcesInHand))
  end.

(** ** The game object *)

Record Blackjack : Type := mkBlackjack {
  playerMoney : Q;
  thisRoundBet : Q;
  playerHand : Hand;
  dealerHand : Hand
}.

Definition MONEY_AT_START : Q := 10 # 1.

(** The object [main] builds with [Blackjack()]: the default member
    initialisers of the class and two empty hands. *)
Definition Blackjack_new : Blackjack :=
  mkBlackjack MONEY_AT_START (0 # 1) [] [].

Definition chars (s : string) : list ascii := list_ascii_of_string s.

(** [Blackjack::requestBetAmount], reading tokens from [input]. It gives
    the bet and the tokens left. *)
Fixpoint requestBetAmount (money : Q) (input : list string)
  : Run (Z * list string) :=
  match input with
  | [] => Blocked
  | betStr :: rest =>
      let inputIsNumerical := forallb isdigit (chars betStr) in
      if inputIsNumerical then
        match stoi betStr with
        | Parsed v =>
            let bet := to_unsigned v in
            if bet <? 1 then requestBetAmount money rest
            else if negb (Qle_bool (inject_Z bet) money)
                 then requestBetAmount money rest
            else Ret (bet, rest)
        | _ => Halt
        end
      else requestBetAmount money rest
  end.

(** [Blackjack::requestHitOrStand]. *)
Fixpoint requestHitOrStand (input : list string) : Run (string * list string) :=
  match input with
  | [] => Blocked
  | userInput :: rest =>
      if String.eqb userInput "h" || String.eqb userInput "H" then
        Ret ("hit", rest)
      else if String.eqb userInput "s" || String.eqb userInput "S" then
        Ret ("stand", rest)
      else requestHitOrStand rest
  end.

(** [Blackjack::payout]; the [bet] parameter is not used by the body. *)
Definition payout (g : Blackjack) (bet factor : Q) : Blackjack :=
  mkBlackjack (playerMoney g + thisRoundBet g * factor + thisRoundBet g)
              (thisRoundBet g) (playerHand g) (dealerHand g).

(** The three flags of [concludeRound]. *)
Record Verdict : Type := mkVerdict {
  playerWon : bool;
  dealerWon : bool;
  wonWithBlackjack : bool
}.

(** The chain of conditions of [concludeRound] that sets the flags. *)
Definition decideWinner (playerSum dealerSum playerSize dealerSize : Z)
  : Verdict :=
  if playerSum >? 21 then mkVerdict false true false
  else if dealerSum >? 21 then mkVerdict true false false
  else if (playerSum >? dealerSum) && (playerSum <? 21) then
    mkVerdict true false false
  else if (dealerSum >? playerSum) && (dealerSum <? 21) then
    mkVerdict false true false
  else if (playerSum =? 21) && negb (dealerSum =? 21) then
    mkVerdict true false (playerSize =? 2)
  else if (dealerSum =? 21) && negb (playerSum =? 21) then
    mkVerdict false true (dealerSize =? 2)
  else if (dealerSum =? 21) && (playerSum =? 21) then
    if (playerSize =? 2) && negb (dealerSize =? 2) then
      mkVerdict true false true
    else if negb (playerSize =? 2) && (dealerSize =? 2) then
      mkVerdict false true true
    else mkVerdict false false false
  else if dealerSum =? playerSum then mkVerdict false false false
  else mkVerdict false false false.

(** The second chain of [concludeRound]: what is paid for the flags. *)
Definition settle (g : Blackjack) (v : Verdict) : Blackjack :=
  if wonWithBlackjack v then payout g (thisRoundBet g) (3 # 2)
  else if playerWon v && negb (wonWithBlackjack v) then
    payout g (thisRoundBet g) (1 # 1)
  else if dealerWon v then g
  else g.

(** The flags [concludeRound] computes for the two hands of [g]. *)
Definition roundVerdict (g : Blackjack) : option Verdict :=
  match sumOptimal (dealerHand g), sumOptimal (playerHand g) with
  | Some d, Some p =>
      let dealerSum := to_signed d in
      let playerSum := to_signed p in
      Some (decideWinner playerSum dealerSum
              (getSize (playerHand g)) (getSize (dealerHand g)))
  | _, _ => None
  end.

(** [concludeRound] up to and including the payment. *)
Definition concludeRound (g : Blackjack) : option Blackjack :=
  match roundVerdict g with
  | Some v => Some (settle g v)
  | None => None
  end.

(** The name the round engine's result type gives to each way a round
    can end, read off the flags and the two sums. *)
Inductive Outcome : Type :=
| PlayerBust | DealerBust | PlayerHigher | DealerHigher
| PlayerBlackjack | DealerBlackjack | Push.

Definition outcomeOf (v : Verdict) (playerSum dealerSum : Z) : Outcome :=
  if playerWon v then
    if wonWithBlackjack v then PlayerBlackjack
    else if dealerSum >? 21 then DealerBust else PlayerHigher
  else if dealerWon v then
    if wonWithBlackjack v then DealerBlackjack
    else if playerSum >? 21 then PlayerBust else DealerHigher
  else Push.

Definition roundOutcome (g : Blackjack) : option Outcome :=
  match roundVerdict g, sumOptimal (dealerHand g), sumOptimal (playerHand g) with
  | Some v, Some d, Some p => Some (outcomeOf v (to_signed p) (to_signed d))
  | _, _, _ => None
  end.

(** ** One round *)

(** The [while] loop of [playRound] that asks for hit or stand. The
    boolean of the result tells whether the loop body called
    [concludeRound] (which does not come back), so that the dealer's
    loop is not reached. *)
Fixpoint playerTurn (fuel : nat) (hand : Hand) (input : list string)
  (rng : Rng) (pos : nat) : Run (bool * Hand * list string * nat) :=
  match fuel with
  | O => Unfinished
  | S fuel' =>
      '(answer, input1) <- requestHitOrStand input ;;
      if String.eqb answer "hit" then
        s <- liftOpt (sumOptimal hand) ;;
        if s <? 21 then
          let '(hand1, pos1) := addRandomCards 1 rng pos hand in
          s1 <- liftOpt (sumOptimal hand1) ;;
          if s1 >=? 21 then Ret (true, hand1, input1, pos1)
          else playerTurn fuel' hand1 input1 rng pos1
        else Ret (false, hand, input1, pos)
      else Ret (false, hand, input1, pos)
  end.

(** The dealer's [while] loop of [playRound]. *)
Fixpoint dealerTurn (fuel : nat) (hand : Hand) (rng : Rng) (pos : nat)
  : Run (Hand * nat) :=
  match sumOptimal hand with
  | None => Halt
  | Some s =>
      if s <? 17 then
        match fuel with
        | O => Unfinished
        | S fuel' =>
            let '(hand1, pos1) := addRandomCards 1 rng pos hand in
            dealerTurn fuel' hand1 rng pos1
        end
      else Ret (hand, pos)
  end.

(** The first two statements of [playRound] after the hands are
    emptied: the bet is asked for and taken off the balance. *)
Definition placeBet (g : Blackjack) (input : list string)
  : Run (Blackjack * list string) :=
  '(bet, input1) <- requestBetAmount (playerMoney g) input ;;
  let thisRoundBet' := inject_Z bet in
  Ret (mkBlackjack (playerMoney g - thisRoundBet') thisRoundBet'
                   (playerHand g) (dealerHand g), input1).

(** A call of [concludeRound] from [playRound], with the hands as they
    are at that point. *)
Definition concludeWith (g : Blackjack) (player dealer : Hand)
  (input : list string) (pos : nat) : Run (Blackjack * list string * nat) :=
  g' <- liftOpt (concludeRound
                   (mkBlackjack (playerMoney g) (thisRoundBet g)
                                player dealer)) ;;
  Ret (g', input, pos).

(** The rest of [playRound], from the first card dealt to the payment
    made inside [concludeRound]. *)
Definition resolveRound (fuel : nat) (g : Blackjack) (input : list string)
  (rng : Rng) (pos : nat) : Run (Blackjack * list string * nat) :=
  let '(dealer1, pos1) := addRandomCards 1 rng pos (dealerHand g) in
  let '(player1, pos2) := addRandomCards 1 rng pos1 (playerHand g) in
  let '(player2, pos3) := addRandomCards 1 rng pos2 player1 in
  let conclude := concludeWith g in
  s <- liftOpt (sumOptimal player2) ;;
  if s =? 21 then conclude player2 dealer1 input pos3
  else
    '(concluded, player3, input1, pos4) <-
       playerTurn fuel player2 input rng pos3 ;;
    if (concluded : bool) then conclude player3 dealer1 input1 pos4
    else
      '(dealer2, pos5) <- dealerTurn fuel dealer1 rng pos4 ;;
      conclude player3 dealer2 input1 pos5.

(** ** The session *)

(** The end of [concludeRound]: the game is over when the balance is
    below 1, otherwise the player chooses a new round or to quit.
    [true] is a new round, [false] is [quitGame]. *)
Fixpoint askNewRound (input : list string) : Run (bool * list string) :=
  match input with
  | [] => Blocked
  | userInput :: rest =>
      if String.eqb userInput "s" || String.eqb userInput "S" then
        Ret (true, rest)
      else if String.eqb userInput "q" || String.eqb userInput "Q" then
        Ret (false, rest)
      else askNewRound rest
  end.

Definition Qlt_bool (a b : Q) : bool := negb (Qle_bool b a).

(** [playRound] and the [concludeRound] it ends in call each other until
    the program exits; [rounds] bounds the number of rounds the model
    follows. The first component lists the values [playerMoney] takes, in
    the order they are assigned; the second is how the run ends, [Ret]
    being [exit(0)]. *)
Fixpoint playRound (rounds fuel : nat) (g : Blackjack) (input : list string)
  (rng : Rng) (pos : nat) : list Q * Run Blackjack :=
  match rounds with
  | O => ([], Unfinished)
  | S rounds' =>
      let g0 := mkBlackjack (playerMoney g) (thisRoundBet g) [] [] in
      match placeBet g0 input with
      | Ret (g1, input1) =>
          match resolveRound fuel g1 input1 rng pos with
          | Ret (g2, input2, pos2) =>
              if Qlt_bool (playerMoney g2) (1 # 1) then
                ([playerMoney g1; playerMoney g2], Ret g2)
              else
                match askNewRound input2 with
                | Ret (true, input3) =>
                    let '(log, r) :=
                      playRound rounds' fuel g2 input3 rng pos2 in
                    (playerMoney g1 :: playerMoney g2 :: log, r)
                | Ret (false, _) =>
                    ([playerMoney g1; playerMoney g2], Ret g2)
                | r => ([playerMoney g1; playerMoney g2], stopped r)
                end
          | r => ([playerMoney g1], stopped r)
          end
      | r => ([], stopped r)
      end
  end.

(** [Blackjack().launchGame()] as [main] calls it. *)
Definition launchGame (rounds fuel : nat) (input : list string) (rng : Rng)
  : list Q * Run Blackjack :=
  match askNewRound input with
  | Ret (true, input1) =>
      let '(log, r) := playRound rounds fuel Blackjack_new input1 rng 0%nat in
      (playerMoney Blackjack_new :: log, r)
  | Ret (false, _) => ([playerMoney Blackjack_new], Ret Blackjack_new)
  | r => ([playerMoney Blackjack_new], stopped r)
  end.

(** ** Valuations of a hand *)

(** The plain sum of the nominal game values. *)
Fixpoint nominalTotal (h : Hand) : option Z :=
  match h with
  | [] => Some 0
  | c :: r =>
      match getGameValue c, nominalTotal r with
      | Some v, Some t => Some (v + t)
      | _, _ => None
      end
  end.

Definition countAces (h : Hand) : Z := Z.of_nat (List.length (filter isAce h)).

(** The values one card may take: 1 or 11 for an Ace, the nominal game
    value for any other card. *)
Definition cardValues (c : Card) : list Z :=
  if isAce c then [1; 11]
  else match getGameValue c with
       | Some v => [v]
       | None => []
       end.

(** Every total a hand can be given by choosing a value for each card. *)
Fixpoint totals (h : Hand) : list Z :=
  match h with
  | [] => [0]
  | c :: r => flat_map (fun v => map (Z.add v) (totals r)) (cardValues c)
  end.

(** The total with every Ace valued at 1. *)
Definition lowValue (c : Card) : option Z :=
  if isAce c then Some 1 else getGameValue c.

Fixpoint lowTotal (h : Hand) : option Z :=
  match h with
  | [] => Some 0
  | c :: r =>
      match lowValue c, lowTotal r with
      | Some v, Some t => Some (v + t)
      | _, _ => None
      end
  end.

(** The face values and symbols the class documents as valid. *)
Definition ranks : list string :=
  ["2"; "3"; "4"; "5"; "6"; "7"; "8"; "9"; "10"; "J"; "Q"; "K"; "A"].

Definition suits : list string := ["hearts"; "diamonds"; "clubs"; "spades"].

Definition card (f : string) : Card := mkCard f "spades".

(** A random source that gives the numbers of [l], then zeros. *)
Definition rngOf (l : list N) : Rng := fun i => nth i l 0%N.

(** ** Predicates on results and balances *)

(** A call is guarded when it does not run into undefined behaviour. *)
Definition guarded {A : Type} (r : Run A) : bool :=
  match r with
  | Undefined => false
  | _ => true
  end.

Definition nonneg (m : Q) : Prop := (0 <= m)%Q.

(** The [double] that holds the balance only ever holds a whole number
    of halves, which the type represents exactly. *)
Definition halfInt (q : Q) : Prop := exists n : Z, (q == n # 2)%Q.

(** Evaluates the sums and the flags of a round whose hands are given,
    leaving the balance and the bet symbolic. *)
Ltac eval_round :=
  unfold concludeRound, roundOutcome, roundVerdict;
  cbn [playerHand dealerHand];
  repeat match goal with
         | |- context [sumOptimal ?h] =>
             let r := eval vm_compute in (sumOptimal h) in
             change (sumOptimal h) with r
         end;
  cbv iota beta;
  repeat match goal with
         | |- context [decideWinner ?p ?d ?ps ?ds] =>
             let r := eval vm_compute in (decideWinner p d ps ds) in
             change (decideWinner p d ps ds) with r
         end;
  cbv iota beta;
  repeat match goal with
         | |- context [outcomeOf ?v ?p ?d] =>
             let r := eval vm_compute in (outcomeOf v p d) in
             change (outcomeOf v p d) with r
         end;
  unfold settle, payout;
  cbn [wonWithBlackjack playerWon dealerWon negb andb playerMoney
       thisRoundBet playerHand dealerHand].

(** ** Further members of [Card] *)

(** The four icon characters the class stores. *)
Definition hearts : ascii := ascii_of_N 3.
Definition diamonds : ascii := ascii_of_N 4.
Definition clubs : ascii := ascii_of_N 5.
Definition spades : ascii := ascii_of_N 6.

(** [Card::cardSymbolStringToIconChar]: the chain has no final [else],
    so for any other string control runs off the end of a function that
    must return a value. *)
Definition cardSymbolStringToIconChar (stringCardSymbol : string)
  : Run ascii :=
  if String.eqb stringCardSymbol "hearts" then Ret hearts
  else if String.eqb stringCardSymbol "diamonds" then Ret diamonds
  else if String.eqb stringCardSymbol "clubs" then Ret clubs
  else if String.eqb stringCardSymbol "spades" then Ret spades
  else Undefined.

(** [Card::setFaceValue] and [Card::setSymbol]. *)
Definition setFaceValue (c : Card) (newFaceValue : string)
  : CardError + Card :=
  match errorCheckCardValue newFaceValue with
  | inl e => inl e
  | inr _ => inr (mkCard newFaceValue (symbolString c))
  end.

Definition setSymbol (c : Card) (newSymbol : string) : CardError + Card :=
  match errorCheckCardSymbol newSymbol with
  | inl e => inl e
  | inr _ => inr (mkCard (faceValueString c) newSymbol)
  end.

Definition getFaceValue (c : Card) : string := faceValueString c.
Definition getSymbol (c : Card) : string := symbolString c.

(** The cards a program can hold: made by one of the two constructors,
    then changed by the two setters. *)
Inductive built : Card -> Prop :=
| built_random (rng : Rng) (pos : nat) : built (fst (Card_random rng pos))
| built_create (f s : string) (c : Card) :
    Card_create f s = inr c -> built c
| built_setFaceValue (c c' : Card) (f : string) :
    built c -> setFaceValue c f = inr c' -> built c'
| built_setSymbol (c c' : Card) (s : string) :
    built c -> setSymbol c s = inr c' -> built c'.

(** A face value that starts with one of the digits 2 to 8. *)
Definition digitLed (f : string) : bool :=
  match f with
  | String c _ =>
      let n := Z.of_N (N_of_ascii c) in (50 <=? n) && (n <=? 56)
  | EmptyString => false
  end.

Definition faceAccepted (f : string) : bool :=
  digitLed f || String.eqb f "9" || String.eqb f "J" || String.eqb f "Q" ||
  String.eqb f "K" || String.eqb f "A".

(** ** Further members of [Hand] *)

(** The loop of [Hand::getSectionOfHand], [n] more rounds from position
    [i]. In [i <= cardsInHand.size()] the position is converted to the
    unsigned type of the size, where a negative position becomes a number
    above every size: the test is false for it. *)
Fixpoint getSection_loop (n : nat) (i : Z) (h : Hand)
  (partOfHand : list Card) : Run (list Card) :=
  match n with
  | O => Ret partOfHand
  | S n' =>
      if (0 <=? i) && (i <=? getSize h) then
        match getCardAtIndex h (i - 1) with
        | Some c => getSection_loop n' (i + 1) h (partOfHand ++ [c])
        | None => Undefined
        end
      else getSection_loop n' (i + 1) h partOfHand
  end.

(** [Hand::getSectionOfHand(start, end)] for two [int] positions. When
    [end] is [INT_MAX] the counter cannot step past it. *)
Definition getSectionOfHand (h : Hand) (start end_ : Z) : Run (list Card) :=
  if end_ <? start then Ret []
  else if end_ =? INT_MAX then Undefined
  else getSection_loop (Z.to_nat (end_ - start + 1)) start h [].

Definition MAX_CARDS_PER_PRINT_ROW : Z := 6.

(** The first statement of [Hand::printHorizontal]: the number of rows,
    computed in the unsigned type of the size ([size_bits] bits wide) and
    stored in an [int]. *)
Definition amountOfRows (size_bits : Z) (h : Hand) : Z :=
  let size_range := 2 ^ size_bits in
  let rows :=
    (((getSize h - 1) mod size_range) / MAX_CARDS_PER_PRINT_ROW + 1)
    mod size_range in
  to_signed (to_unsigned rows).

(** The loop of [Hand::printHorizontal]: the section of the hand each
    row prints, [n] more rows from row [rowOfCards]. *)
Fixpoint printHorizontal_loop (n : nat) (rowOfCards : Z) (h : Hand)
  : Run (list (list Card)) :=
  match n with
  | O => Ret []
  | S n' =>
      if MAX_CARDS_PER_PRINT_ROW * rowOfCards >? INT_MAX then Undefined
      else
        cardsInThisRow <-
          getSectionOfHand h
            (MAX_CARDS_PER_PRINT_ROW * rowOfCards
             - MAX_CARDS_PER_PRINT_ROW + 1)
            (MAX_CARDS_PER_PRINT_ROW * rowOfCards) ;;
        rest <- printHorizontal_loop n' (rowOfCards + 1) h ;;
        Ret (cardsInThisRow :: rest)
  end.

(** The rows of cards [Hand::printHorizontal] prints, each as seven
    lines of text. *)
Definition printHorizontal (size_bits : Z) (h : Hand)
  : Run (list (list Card)) :=
  printHorizontal_loop (Z.to_nat (amountOfRows size_bits h)) 1 h.

(** The condition under which [concludeRound] reaches the last [else]
    of its first chain and reports that the winner is not defined: every
    test of the chain before it is false. *)
Definition winnerUndecided (playerSum dealerSum : Z) : bool :=
  negb (playerSum >? 21) && negb (dealerSum >? 21) &&
  negb ((playerSum >? dealerSum) && (playerSum <? 21)) &&
  negb ((dealerSum >? playerSum) && (dealerSum <? 21)) &&
  negb ((playerSum =? 21) && negb (dealerSum =? 21)) &&
  negb ((dealerSum =? 21) && negb (playerSum =? 21)) &&
  negb ((dealerSum =? 21) && (playerSum =? 21)) &&
  negb (dealerSum =? playerSum).

(** The tokens the two prompts of a round act on. *)
Definition hitOrStandTokens : list string := ["h"; "H"; "s"; "S"].

(** The shape of the values the balance takes from a balance [m] on:
    round after round, the balance less a bet of a whole number from 1
    to the balance, then that plus nothing, twice the bet, or two and a
    half times the bet; and a further round only from a balance of at
    least 1. *)
Inductive balanceTrace : Q -> list Q -> Prop :=
| trace_end (m : Q) : balanceTrace m []
| trace_bet (m : Q) (bet : Z) :
    1 <= bet -> (inject_Z bet <= m)%Q ->
    balanceTrace m [(m - inject_Z bet)%Q]
| trace_round (m m2 f : Q) (bet : Z) (rest : list Q) :
    1 <= bet -> (inject_Z bet <= m)%Q ->
    f = 0%Q \/ f = 2%Q \/ f = (5 # 2)%Q ->
    (m2 == m - inject_Z bet + inject_Z bet * f)%Q ->
    (rest <> [] -> (1 <= m2)%Q) ->
    balanceTrace m2 rest ->
    balanceTrace m ((m - inject_Z bet)%Q :: m2 :: rest).

(** The first [n] groups of six cards of a list. *)
Fixpoint chunks (n : nat) (l : list Card) : list (list Card) :=
  match n with
  | O => []
  | S n' => firstn 6 l :: chunks n' (skipn 6 l)
  end.

(** * Properties *)

(** ** Strings and card values *)

Lemma str_ge_2_head (f : string) :
  str_ge f "2" = true ->
  exists c r, f = String c r /\ (50 <= N_of_ascii c)%N.
Proof.
  unfold str_ge, String.leb. destruct f as [|c r]; simpl.
  - discriminate.
  - intros H. exists c, r. split; [reflexivity|].
    unfold Ascii.compare in H.
    change (N_of_ascii "2") with 50%N in H.
    destruct (N.compare_spec 50 (N_of_ascii c)); try lia; discriminate.
Qed.

Lemma isdigit_range (c : ascii) :
  isdigit c = true -> 48 <= Z.of_N (N_of_ascii c) <= 57.
Proof.
  unfold isdigit. cbv zeta. intros H. apply andb_prop in H.
  destruct H as [Hlo Hhi]. apply Z.leb_le in Hlo. apply Z.leb_le in Hhi.
  split; assumption.
Qed.

Lemma readDigits_nonneg (s : string) :
  forall acc seen, 0 <= acc -> 0 <= fst (readDigits s acc seen).
Proof.
  induction s as [|c r IH]; intros acc seen Hacc; cbn [readDigits fst];
    [exact Hacc|].
  destruct (isdigit c) eqn:Hd; cbn [fst].
  - apply IH. apply isdigit_range in Hd. unfold digitValue. lia.
  - exact Hacc.
Qed.

Lemma stoi_head_nonneg (c : ascii) (r : string) (v : Z) :
  (50 <= N_of_ascii c)%N -> stoi (String c r) = Parsed v -> 0 <= v.
Proof.
  intros Hc. unfold stoi.
  assert (Hsp : isspace c = false).
  { unfold isspace.
    destruct (Z.eqb_spec (Z.of_N (N_of_ascii c)) 32); [lia|].
    destruct (Z.leb_spec (Z.of_N (N_of_ascii c)) 13); [lia|].
    rewrite andb_false_r. reflexivity. }
  simpl skipSpaces. rewrite Hsp.
  destruct c as [[] [] [] [] [] [] [] []];
    try (vm_compute in Hc; exfalso; apply Hc; reflexivity);
    match goal with
    | |- context [readDigits ?s ?a ?b] =>
        pose proof (readDigits_nonneg s a b ltac:(lia)) as Hn;
        destruct (readDigits s a b) as [w seen]
    end; simpl in Hn;
    destruct seen; simpl; try discriminate;
    match goal with
    | |- context [if ?b then _ else _] => destruct b
    end; intros E; inversion E; subst; exact Hn.
Qed.

Lemma getGameValue_nonneg (c : Card) (v : Z) :
  getGameValue c = Some v -> 0 <= v.
Proof.
  unfold getGameValue. cbv zeta.
  destruct (str_ge (faceValueString c) "2") eqn:Hge; cbn [andb].
  - destruct (str_le (faceValueString c) "9").
    + destruct (str_ge_2_head _ Hge) as (a & r & Hf & Ha). rewrite Hf.
      destruct (stoi (String a r)) eqn:Hs; try discriminate.
      intros E. inversion E; subst.
      eapply stoi_head_nonneg; eassumption.
    + repeat match goal with
             | |- context [if ?b then _ else _] => destruct b
             end; intros E; inversion E; lia.
  - repeat match goal with
           | |- context [if ?b then _ else _] => destruct b
           end; intros E; inversion E; lia.
Qed.

Lemma isAce_value (c : Card) : isAce c = true -> getGameValue c = Some 11.
Proof.
  unfold isAce, getGameValue. cbv zeta.
  destruct (String.eqb_spec (faceValueString c) "A") as [->|]; [|discriminate].
  reflexivity.
Qed.

Lemma countAces_cons (c : Card) (r : Hand) :
  countAces (c :: r) = (if isAce c then 1 else 0) + countAces r.
Proof.
  unfold countAces. cbn [filter]. destruct (isAce c); cbn [List.length]; lia.
Qed.

Lemma countAces_nonneg (h : Hand) : 0 <= countAces h.
Proof. unfold countAces. lia. Qed.

(** The [for] loop adds the nominal total to [sum] and the number of
    Aces to the counter. *)
Lemma sumCards_acc (h : Hand) :
  forall sum aces,
    sumCards h sum aces =
    match nominalTotal h with
    | Some t => Some (sum + t, aces + countAces h)
    | None => None
    end.
Proof.
  induction h as [|c r IH]; intros sum aces; cbn [sumCards nominalTotal].
  - change (countAces []) with 0. f_equal. f_equal; lia.
  - destruct (getGameValue c) as [v|]; [|reflexivity].
    rewrite IH, countAces_cons.
    destruct (nominalTotal r) as [t|]; [|reflexivity].
    destruct (isAce c); f_equal; f_equal; lia.
Qed.

Lemma nominalTotal_aces (h : Hand) :
  forall t, nominalTotal h = Some t -> 11 * countAces h <= t.
Proof.
  induction h as [|c r IH]; intros t; cbn [nominalTotal].
  - intros E. inversion E. change (countAces []) with 0. lia.
  - destruct (getGameValue c) as [v|] eqn:Hv; [|discriminate].
    destruct (nominalTotal r) as [t'|]; [|discriminate].
    intros E. inversion E; subst. rewrite countAces_cons.
    specialize (IH _ eq_refl). pose proof (getGameValue_nonneg _ _ Hv).
    destruct (isAce c) eqn:Ha; [|lia].
    rewrite (isAce_value _ Ha) in Hv. inversion Hv. lia.
Qed.

Lemma lowTotal_char (h : Hand) :
  forall t, nominalTotal h = Some t ->
            lowTotal h = Some (t - 10 * countAces h).
Proof.
  induction h as [|c r IH]; intros t; cbn [nominalTotal lowTotal].
  - intros E. inversion E. reflexivity.
  - destruct (getGameValue c) as [v|] eqn:Hv; [|discriminate].
    destruct (nominalTotal r) as [t'|]; [|discriminate].
    intros E. inversion E; subst. rewrite (IH _ eq_refl), countAces_cons.
    unfold lowValue. destruct (isAce c) eqn:Ha.
    + rewrite (isAce_value _ Ha) in Hv. inversion Hv. f_equal. lia.
    + rewrite Hv. f_equal. lia.
Qed.

(** The totals a hand can take are the nominal total less ten for each
    Ace counted low. *)
Lemma totals_char (h : Hand) :
  forall t, nominalTotal h = Some t ->
  forall x, In x (totals h) <->
            exists j, 0 <= j <= countAces h /\ x = t - 10 * j.
Proof.
  induction h as [|c r IH]; intros t; cbn [nominalTotal totals].
  - intros E x. inversion E; subst. change (countAces []) with 0. split.
    + intros [<-|[]]. exists 0. lia.
    + intros (j & Hj & ->). left. lia.
  - destruct (getGameValue c) as [v|] eqn:Hv; [|discriminate].
    destruct (nominalTotal r) as [t'|]; [|discriminate].
    intros E x. inversion E; subst. specialize (IH _ eq_refl).
    rewrite countAces_cons. pose proof (countAces_nonneg r) as Hk.
    unfold cardValues. rewrite Hv. destruct (isAce c) eqn:Ha.
    + rewrite (isAce_value _ Ha) in Hv. inversion Hv; subst.
      cbn [flat_map]. rewrite app_nil_r, in_app_iff, !in_map_iff. split.
      * intros [(y & <- & Hy)|(y & <- & Hy)];
          apply IH in Hy; destruct Hy as (j & Hj & ->).
        -- exists (j + 1). lia.
        -- exists j. lia.
      * intros (j & Hj & ->).
        destruct (Z.eq_dec j (1 + countAces r)) as [->|Hne].
        -- left. exists (t' - 10 * countAces r). split; [lia|].
           apply IH. exists (countAces r). lia.
        -- right. exists (t' - 10 * j). split; [lia|].
           apply IH. exists j. lia.
    + cbn [flat_map]. rewrite app_nil_r, in_map_iff. split.
      * intros (y & <- & Hy). apply IH in Hy. destruct Hy as (j & Hj & ->).
        exists j. lia.
      * intros (j & Hj & ->). exists (t' - 10 * j). split; [lia|].
        apply IH. exists j. lia.
Qed.

(** One step of the [while] loop. *)
Lemma reduceAces_step (sum aces : Z) :
  reduceAces sum aces =
  if (sum >? 21) && (aces >? 0) then reduceAces (sum - 10) (aces - 1)
  else sum.
Proof.
  rewrite reduceAces_equation_1. unfold reduceAces_unfold_clause_1.
  destruct ((sum >? 21) && (aces >? 0)); reflexivity.
Qed.

(** The [while] loop stops at the first total that is at most 21, or
    after every Ace has been counted low. *)
Lemma reduceAces_spec (aces : Z) :
  0 <= aces ->
  forall sum, exists j,
    0 <= j <= aces /\ reduceAces sum aces = sum - 10 * j /\
    (sum - 10 * j <= 21 \/ j = aces) /\
    (forall i, 0 <= i < j -> 21 < sum - 10 * i).
Proof.
  intros Haces. pattern aces. apply natlike_ind; [| |exact Haces].
  - intros sum. exists 0. rewrite reduceAces_step.
    replace (0 >? 0) with false by reflexivity. rewrite andb_false_r.
    repeat split; try lia.
  - intros k Hk IH sum. rewrite reduceAces_step.
    destruct (Z.gtb_spec sum 21) as [Hgt|Hle]; cbn [andb].
    + destruct (Z.gtb_spec (Z.succ k) 0) as [_|Hbad]; [|lia].
      replace (Z.succ k - 1) with k by lia.
      destruct (IH (sum - 10)) as (j & Hj & Hval & Hstop & Hbefore).
      exists (j + 1). repeat split; try lia.
      intros i Hi. destruct (Z.eq_dec i 0) as [->|Hne]; [lia|].
      specialize (Hbefore (i - 1)). lia.
    + exists 0. repeat split; try lia.
Qed.

Lemma to_unsigned_small (z : Z) : 0 <= z <= INT_MAX -> to_unsigned z = z.
Proof.
  unfold to_unsigned, UINT_RANGE, INT_MAX. intros Hz.
  apply Z.mod_small. lia.
Qed.

Lemma to_signed_small (z : Z) : 0 <= z <= INT_MAX -> to_signed z = z.
Proof.
  unfold to_signed. intros Hz.
  destruct (Z.leb_spec z INT_MAX); [reflexivity|lia].
Qed.

(** What [sumOptimal] returns for a hand whose running sum fits an
    [int]. *)
Lemma sumOptimal_value (h : Hand) (t : Z) :
  nominalTotal h = Some t -> t <= INT_MAX ->
  exists j,
    0 <= j <= countAces h /\ sumOptimal h = Some (t - 10 * j) /\
    (t - 10 * j <= 21 \/ j = countAces h) /\
    (forall i, 0 <= i < j -> 21 < t - 10 * i).
Proof.
  intros Ht Hmax. unfold sumOptimal. rewrite sumCards_acc, Ht.
  cbn [Z.add]. replace (0 + countAces h) with (countAces h) by lia.
  destruct (reduceAces_spec (countAces h) (countAces_nonneg h) t)
    as (j & Hj & Hval & Hstop & Hbefore).
  exists j. repeat split; try lia; try assumption.
  rewrite Hval. f_equal. apply to_unsigned_small.
  pose proof (nominalTotal_aces h t Ht). lia.
Qed.

(** C1: for every hand whose running sum fits an [int], [sumOptimal]
    returns the largest total not above 21 that valuing each Ace as 1 or
    11 (and every other card at its game value) can reach; when every
    such total is above 21 it returns the total with every Ace at 1; and
    for a hand without Aces it returns the plain sum of the game
    values. *)
Theorem sumOptimal_is_best_total (h : Hand) (t : Z) :
  nominalTotal h = Some t -> t <= INT_MAX ->
  exists r low,
    sumOptimal h = Some r /\ lowTotal h = Some low /\
    ((exists x, In x (totals h) /\ x <= 21) ->
     In r (totals h) /\ r <= 21 /\
     forall x, In x (totals h) -> x <= 21 -> x <= r) /\
    ((forall x, In x (totals h) -> 21 < x) -> r = low) /\
    (countAces h = 0 -> r = t).
Proof.
  intros Ht Hmax.
  destruct (sumOptimal_value h t Ht Hmax)
    as (j & Hj & Hsum & Hstop & Hbefore).
  pose proof (totals_char h t Ht) as Hchar.
  exists (t - 10 * j), (t - 10 * countAces h).
  split; [exact Hsum|]. split; [apply lowTotal_char; exact Ht|].
  assert (Hin : In (t - 10 * j) (totals h)).
  { apply Hchar. exists j. lia. }
  split; [|split].
  - intros (x & Hx & Hx21). apply Hchar in Hx.
    destruct Hx as (i & Hi & ->).
    assert (Hle : t - 10 * j <= 21).
    { destruct Hstop as [Hstop|Hstop]; [exact Hstop|lia]. }
    split; [exact Hin|]. split; [exact Hle|].
    intros y Hy Hy21. apply Hchar in Hy. destruct Hy as (i' & Hi' & ->).
    destruct (Z_lt_le_dec i' j) as [Hlt|Hge]; [|lia].
    specialize (Hbefore i'). lia.
  - intros Hall. specialize (Hall _ Hin).
    destruct Hstop as [Hstop|Hstop]; [lia|]. rewrite Hstop. reflexivity.
  - intros Hzero. lia.
Qed.

Lemma sumOptimal_is_best_total_witness :
  exists r low,
    sumOptimal [card "A"; card "A"; card "7"] = Some r /\
    lowTotal [card "A"; card "A"; card "7"] = Some low /\
    ((exists x, In x (totals [card "A"; card "A"; card "7"]) /\ x <= 21) ->
     In r (totals [card "A"; card "A"; card "7"]) /\ r <= 21 /\
     forall x, In x (totals [card "A"; card "A"; card "7"]) ->
               x <= 21 -> x <= r) /\
    ((forall x, In x (totals [card "A"; card "A"; card "7"]) -> 21 < x) ->
     r = low) /\
    (countAces [card "A"; card "A"; card "7"] = 0 -> r = 29).
Proof.
  apply (sumOptimal_is_best_total [card "A"; card "A"; card "7"] 29).
  - reflexivity.
  - unfold INT_MAX. lia.
Defined.

(** ** The dealer's loop *)

Lemma random_face_in_ranks (r : N) : In (generateRandomCardValueString r) ranks.
Proof.
  unfold generateRandomCardValueString. cbv zeta.
  assert (Hm : 0 <= Z.rem (Z.of_N r) 13 < 13).
  { apply Z.rem_bound_pos; lia. }
  remember (Z.rem (Z.of_N r) 13) as m eqn:Em. clear Em.
  assert (Hcases : m = 0 \/ m = 1 \/ m = 2 \/ m = 3 \/ m = 4 \/ m = 5 \/
                   m = 6 \/ m = 7 \/ m = 8 \/ m = 9 \/ m = 10 \/
                   m = 11 \/ m = 12) by lia.
  repeat (destruct Hcases as [->|Hcases]); try subst m;
    vm_compute; tauto.
Qed.

Lemma rank_values (f s : string) :
  In f ranks ->
  exists v lv,
    getGameValue (mkCard f s) = Some v /\ lowValue (mkCard f s) = Some lv /\
    1 <= lv <= v /\ v <= 11.
Proof.
  unfold ranks. intros H.
  repeat (destruct H as [<-|H]); try contradiction;
    vm_compute; eexists; eexists; repeat split; discriminate.
Qed.

(** A hand of cards with valid face values has a nominal total, at most
    11 a card. *)
Lemma nominalTotal_ranks (h : Hand) :
  Forall (fun c => In (faceValueString c) ranks) h ->
  exists t, nominalTotal h = Some t /\ t <= 11 * Z.of_nat (List.length h).
Proof.
  induction h as [|c r IH]; intros Hall.
  - exists 0. split; [reflexivity|]. cbn [List.length]. lia.
  - inversion Hall as [|c' r' Hc Hr]; subst.
    destruct (IH Hr) as (t & Ht & Hle).
    destruct c as [f s]. cbn [faceValueString] in Hc.
    destruct (rank_values f s Hc) as (v & lv & Hv & _ & _ & Hv11).
    exists (v + t). cbn [nominalTotal]. rewrite Hv, Ht.
    split; [reflexivity|]. cbn [List.length]. lia.
Qed.

Lemma nominalTotal_snoc (h : Hand) (c : Card) (t v : Z) :
  nominalTotal h = Some t -> getGameValue c = Some v ->
  nominalTotal (h ++ [c]) = Some (t + v).
Proof.
  revert t. induction h as [|d r IH]; intros t Ht Hv;
    cbn [app nominalTotal] in *.
  - inversion Ht; subst. rewrite Hv. f_equal. lia.
  - destruct (getGameValue d) as [w|]; [|discriminate].
    destruct (nominalTotal r) as [t'|]; [|discriminate].
    inversion Ht; subst. rewrite (IH _ eq_refl Hv). f_equal. lia.
Qed.

Lemma lowTotal_snoc (h : Hand) (c : Card) (t v : Z) :
  lowTotal h = Some t -> lowValue c = Some v ->
  lowTotal (h ++ [c]) = Some (t + v).
Proof.
  revert t. induction h as [|d r IH]; intros t Ht Hv;
    cbn [app lowTotal] in *.
  - inversion Ht; subst. rewrite Hv. f_equal. lia.
  - destruct (lowValue d) as [w|]; [|discriminate].
    destruct (lowTotal r) as [t'|]; [|discriminate].
    inversion Ht; subst. rewrite (IH _ eq_refl Hv). f_equal. lia.
Qed.

Lemma addRandomCards_one (rng : Rng) (pos : nat) (h : Hand) :
  addRandomCards 1 rng pos h = (h ++ [fst (Card_random rng pos)], S (S pos)).
Proof. reflexivity. Qed.

(** A card the default constructor makes is worth between 1 and 11. *)
Lemma Card_random_values (rng : Rng) (pos : nat) :
  exists v lv,
    getGameValue (fst (Card_random rng pos)) = Some v /\
    lowValue (fst (Card_random rng pos)) = Some lv /\
    1 <= lv <= v /\ v <= 11.
Proof.
  unfold Card_random. cbn [fst].
  apply rank_values, random_face_in_ranks.
Qed.

Lemma dealerTurn_unfold (fuel : nat) (hand : Hand) (rng : Rng) (pos : nat) :
  dealerTurn fuel hand rng pos =
  match sumOptimal hand with
  | None => Halt
  | Some s =>
      if s <? 17 then
        match fuel with
        | O => Unfinished
        | S fuel' =>
            dealerTurn fuel' (hand ++ [fst (Card_random rng pos)]) rng
              (S (S pos))
        end
      else Ret (hand, pos)
  end.
Proof. destruct fuel; reflexivity. Qed.

(** Every draw raises the total that counts each Ace as 1, and
    [sumOptimal] is never below that total: [n] draws are enough when
    the low total is within [n] of 17. *)
Lemma dealerTurn_bounded (rng : Rng) (n : nat) :
  forall hand pos t low,
    nominalTotal hand = Some t -> lowTotal hand = Some low ->
    17 - low <= Z.of_nat n -> t + 11 * Z.of_nat n <= INT_MAX ->
    exists draws hand' pos' s,
      (draws <= n)%nat /\
      (forall fuel, (draws <= fuel)%nat ->
                    dealerTurn fuel hand rng pos = Ret (hand', pos')) /\
      (forall fuel, (fuel < draws)%nat ->
                    dealerTurn fuel hand rng pos = Unfinished) /\
      List.length hand' = (List.length hand + draws)%nat /\
      firstn (List.length hand) hand' = hand /\
      sumOptimal hand' = Some s /\ 17 <= s.
Proof.
  induction n as [|n IH]; intros hand pos t low Ht Hlow Hn Hmax.
  - destruct (sumOptimal_value hand t Ht ltac:(lia))
      as (j & Hj & Hsum & _ & _).
    assert (Hl : low = t - 10 * countAces hand).
    { pose proof (lowTotal_char hand t Ht). congruence. }
    exists 0%nat, hand, pos, (t - 10 * j).
    assert (Hge : (t - 10 * j <? 17) = false) by (apply Z.ltb_ge; lia).
    split; [lia|]. split; [|split; [|split; [|split; [|split]]]].
    + intros fuel _. rewrite dealerTurn_unfold, Hsum, Hge. reflexivity.
    + intros fuel Hf. lia.
    + lia.
    + apply firstn_all.
    + exact Hsum.
    + lia.
  - destruct (sumOptimal_value hand t Ht ltac:(lia))
      as (j & Hj & Hsum & _ & _).
    assert (Hl : low = t - 10 * countAces hand).
    { pose proof (lowTotal_char hand t Ht). congruence. }
    destruct (Z.ltb_spec (t - 10 * j) 17) as [Hlt|Hge].
    + destruct (Card_random_values rng pos) as (v & lv & Hv & Hlv & Hr1 & Hr2).
      pose proof (nominalTotal_snoc _ _ _ _ Ht Hv) as Ht1.
      pose proof (lowTotal_snoc _ _ _ _ Hlow Hlv) as Hlow1.
      destruct (IH _ (S (S pos)) _ _ Ht1 Hlow1 ltac:(lia) ltac:(lia))
        as (draws & hand' & pos' & s & Hd & Hret & Hunf & Hlen & Hpre
            & Hs & Hs17).
      exists (S draws), hand', pos', s.
      assert (Hcond : (t - 10 * j <? 17) = true) by (apply Z.ltb_lt; lia).
      split; [lia|]. split; [|split; [|split; [|split; [|split]]]].
      * intros fuel Hf. rewrite dealerTurn_unfold, Hsum, Hcond.
        destruct fuel as [|fuel]; [lia|]. apply Hret. lia.
      * intros fuel Hf. rewrite dealerTurn_unfold, Hsum, Hcond.
        destruct fuel as [|fuel]; [reflexivity|]. apply Hunf. lia.
      * rewrite Hlen, length_app. cbn [List.length]. lia.
      * rewrite length_app in Hpre. cbn [List.length] in Hpre.
        apply (f_equal (firstn (List.length hand))) in Hpre.
        rewrite firstn_firstn in Hpre.
        replace (Nat.min (List.length hand) (List.length hand + 1))
          with (List.length hand) in Hpre by lia.
        rewrite Hpre, firstn_app, firstn_all, Nat.sub_diag.
        cbn [firstn]. apply app_nil_r.
      * exact Hs.
      * exact Hs17.
    + exists 0%nat, hand, pos, (t - 10 * j).
      assert (Hcond : (t - 10 * j <? 17) = false) by (apply Z.ltb_ge; lia).
      split; [lia|]. split; [|split; [|split; [|split; [|split]]]].
      * intros fuel _. rewrite dealerTurn_unfold, Hsum, Hcond. reflexivity.
      * intros fuel Hf. lia.
      * lia.
      * apply firstn_all.
      * exact Hsum.
      * lia.
Qed.

Lemma lowTotal_nonneg (h : Hand) (t : Z) : nominalTotal h = Some t ->
  0 <= t - 10 * countAces h.
Proof.
  intros Ht. pose proof (nominalTotal_aces h t Ht).
  pose proof (countAces_nonneg h). lia.
Qed.

(** C5: from every dealer hand whose running sum stays within an [int],
    and for every sequence of random cards, the dealer's loop stops
    after a finite number of draws (at most 17), and the hand it leaves
    has an optimal sum of at least 17. *)
Theorem dealerTurn_terminates (hand : Hand) (rng : Rng) (pos : nat) (t : Z) :
  nominalTotal hand = Some t -> t <= INT_MAX - 187 ->
  exists draws hand' pos' s,
    (draws <= 17)%nat /\
    (forall fuel, (draws <= fuel)%nat ->
                  dealerTurn fuel hand rng pos = Ret (hand', pos')) /\
    (forall fuel, (fuel < draws)%nat ->
                  dealerTurn fuel hand rng pos = Unfinished) /\
    List.length hand' = (List.length hand + draws)%nat /\
    firstn (List.length hand) hand' = hand /\
    sumOptimal hand' = Some s /\ 17 <= s.
Proof.
  intros Ht Hmax.
  apply (dealerTurn_bounded rng 17 hand pos t (t - 10 * countAces hand)).
  - exact Ht.
  - apply lowTotal_char. exact Ht.
  - pose proof (lowTotal_nonneg hand t Ht). lia.
  - lia.
Qed.

Lemma dealerTurn_terminates_witness :
  exists draws hand' pos' s,
    (draws <= 17)%nat /\
    (forall fuel, (draws <= fuel)%nat ->
                  dealerTurn fuel [card "A"; card "5"] (fun _ => 12%N) 0
                  = Ret (hand', pos')) /\
    (forall fuel, (fuel < draws)%nat ->
                  dealerTurn fuel [card "A"; card "5"] (fun _ => 12%N) 0
                  = Unfinished) /\
    List.length hand' = (List.length [card "A"; card "5"] + draws)%nat /\
    firstn (List.length [card "A"; card "5"]) hand' = [card "A"; card "5"] /\
    sumOptimal hand' = Some s /\ 17 <= s.
Proof.
  apply (dealerTurn_terminates [card "A"; card "5"] (fun _ => 12%N) 0 16).
  - reflexivity.
  - unfold INT_MAX. lia.
Defined.

(** ** The bankroll *)

Local Open Scope Q_scope.

Lemma requestBetAmount_accepts (money : Q) (input : list string) :
  forall bet rest,
    requestBetAmount money input = Ret (bet, rest) ->
    (1 <= bet)%Z /\ inject_Z bet <= money.
Proof.
  induction input as [|betStr more IH]; intros bet rest;
    cbn [requestBetAmount]; [discriminate|].
  cbv zeta. destruct (forallb isdigit (chars betStr)); [|apply IH].
  destruct (stoi betStr) as [v| |]; try discriminate.
  destruct (Z.ltb_spec (to_unsigned v) 1) as [Hlow|Hmin]; [apply IH|].
  destruct (Qle_bool (inject_Z (to_unsigned v)) money) eqn:Hle;
    cbn [negb]; [|apply IH].
  intros E. inversion E; subst. split; [exact Hmin|].
  apply Qle_bool_iff. exact Hle.
Qed.

Lemma placeBet_spec (g g1 : Blackjack) (input input1 : list string) :
  placeBet g input = Ret (g1, input1) ->
  exists bet,
    requestBetAmount (playerMoney g) input = Ret (bet, input1) /\
    playerMoney g1 = playerMoney g - inject_Z bet /\
    thisRoundBet g1 = inject_Z bet.
Proof.
  unfold placeBet.
  destruct (requestBetAmount (playerMoney g) input) as [[bet rest]| | | |];
    cbn [bindRun]; try discriminate.
  intros E. inversion E; subst. exists bet.
  repeat split; reflexivity.
Qed.

Lemma inject_Z_ge_1 (z : Z) : (1 <= z)%Z -> 1 <= inject_Z z.
Proof.
  intros H. change 1 with (inject_Z 1). rewrite <- Zle_Qle. exact H.
Qed.

Lemma settle_money (g : Blackjack) (v : Verdict) :
  0 <= thisRoundBet g -> playerMoney g <= playerMoney (settle g v).
Proof.
  intros Hb. unfold settle, payout.
  destruct (wonWithBlackjack v); cbn [playerMoney]; [lra|].
  destruct (playerWon v && negb false); cbn [playerMoney]; [lra|].
  destruct (dealerWon v); lra.
Qed.

Lemma concludeWith_money (g g2 : Blackjack) (player dealer : Hand)
  (input input2 : list string) (pos pos2 : nat) :
  concludeWith g player dealer input pos = Ret (g2, input2, pos2) ->
  0 <= thisRoundBet g -> playerMoney g <= playerMoney g2.
Proof.
  unfold concludeWith, concludeRound.
  destruct (roundVerdict _) as [v|]; cbn [liftOpt bindRun]; [|discriminate].
  intros E Hb. inversion E; subst.
  apply (settle_money (mkBlackjack (playerMoney g) (thisRoundBet g)
                                   player dealer) v Hb).
Qed.

Lemma resolveRound_money (fuel : nat) (g g2 : Blackjack)
  (input input2 : list string) (rng : Rng) (pos pos2 : nat) :
  resolveRound fuel g input rng pos = Ret (g2, input2, pos2) ->
  0 <= thisRoundBet g -> playerMoney g <= playerMoney g2.
Proof.
  unfold resolveRound. rewrite !addRandomCards_one. cbv zeta.
  destruct (sumOptimal _) as [s|]; cbn [liftOpt bindRun]; [|discriminate].
  destruct (s =? 21)%Z; [apply concludeWith_money|].
  destruct (playerTurn _ _ _ _ _) as [[[[concluded player3] input1] pos4]| | | |];
    cbn [bindRun]; try discriminate.
  destruct concluded; [apply concludeWith_money|].
  destruct (dealerTurn _ _ _ _) as [[dealer2 pos5]| | | |];
    cbn [bindRun]; try discriminate.
  apply concludeWith_money.
Qed.

Lemma playRound_log (rounds fuel : nat) (rng : Rng) :
  forall g input pos,
    0 <= playerMoney g ->
    Forall nonneg (fst (playRound rounds fuel g input rng pos)).
Proof.
  induction rounds as [|rounds IH]; intros g input pos Hg;
    cbn [playRound]; [constructor|].
  destruct (placeBet _ input) as [[g1 input1]| | | |] eqn:Hbet;
    try (cbn [fst]; constructor).
  apply placeBet_spec in Hbet. destruct Hbet as (bet & Hacc & Hm1 & Hb1).
  apply requestBetAmount_accepts in Hacc. cbn [playerMoney] in Hacc, Hm1.
  destruct Hacc as [Hone Hle]. apply inject_Z_ge_1 in Hone.
  assert (H1 : nonneg (playerMoney g1)) by (unfold nonneg; rewrite Hm1; lra).
  destruct (resolveRound fuel g1 input1 rng pos)
    as [[[g2 input2] pos2]| | | |] eqn:Hres;
    try (cbn [fst]; repeat constructor; exact H1).
  apply resolveRound_money in Hres; [|rewrite Hb1; lra].
  assert (H2 : nonneg (playerMoney g2)) by (unfold nonneg in *; lra).
  destruct (Qlt_bool (playerMoney g2) (1 # 1));
    [cbn [fst]; repeat constructor; assumption|].
  destruct (askNewRound input2) as [[[] input3]| | | |];
    try (cbn [fst]; repeat constructor; assumption).
  specialize (IH g2 input3 pos2 H2).
  destruct (playRound rounds fuel g2 input3 rng pos2) as [log r].
  cbn [fst] in *. repeat constructor; assumption.
Qed.

(** C9: in every run of the game, whatever the player types and
    whatever cards come, every value the balance takes is at least 0. *)
Theorem bankroll_never_negative (rounds fuel : nat) (input : list string)
  (rng : Rng) :
  Forall (fun m => 0 <= m) (fst (launchGame rounds fuel input rng)).
Proof.
  assert (H0 : nonneg (playerMoney Blackjack_new)).
  { unfold nonneg. cbn. unfold MONEY_AT_START. lra. }
  unfold launchGame.
  destruct (askNewRound input) as [[[] input1]| | | |];
    try (cbn [fst]; repeat constructor; exact H0).
  pose proof (playRound_log rounds fuel rng Blackjack_new input1 0%nat H0)
    as Hlog.
  destruct (playRound rounds fuel Blackjack_new input1 rng 0) as [log r].
  cbn [fst] in *. constructor; [exact H0|exact Hlog].
Qed.

Lemma settle_pays (g : Blackjack) (v : Verdict) :
  thisRoundBet (settle g v) = thisRoundBet g /\
  exists f, (f = 0 \/ f = 2 \/ f = 5 # 2) /\
            playerMoney (settle g v) == playerMoney g + thisRoundBet g * f.
Proof.
  unfold settle, payout.
  destruct (wonWithBlackjack v); cbn [playerMoney thisRoundBet];
    [split; [reflexivity|]; exists (5 # 2); split; [tauto|lra]|].
  destruct (playerWon v && negb false); cbn [playerMoney thisRoundBet];
    [split; [reflexivity|]; exists 2; split; [tauto|lra]|].
  destruct (dealerWon v); (split; [reflexivity|]; exists 0; split; [tauto|lra]).
Qed.

Lemma concludeWith_pays (g g2 : Blackjack) (player dealer : Hand)
  (input input2 : list string) (pos pos2 : nat) :
  concludeWith g player dealer input pos = Ret (g2, input2, pos2) ->
  thisRoundBet g2 = thisRoundBet g /\
  exists f, (f = 0 \/ f = 2 \/ f = 5 # 2) /\
            playerMoney g2 == playerMoney g + thisRoundBet g * f.
Proof.
  unfold concludeWith, concludeRound.
  destruct (roundVerdict _) as [v|]; cbn [liftOpt bindRun stopped];
    [|discriminate].
  intros E. inversion E; subst.
  apply (settle_pays (mkBlackjack (playerMoney g) (thisRoundBet g)
                                  player dealer) v).
Qed.

(** A round pays nothing, twice the bet, or two and a half times the
    bet, and leaves the bet as it was placed. *)
Lemma resolveRound_pays (fuel : nat) (g g2 : Blackjack)
  (input input2 : list string) (rng : Rng) (pos pos2 : nat) :
  resolveRound fuel g input rng pos = Ret (g2, input2, pos2) ->
  thisRoundBet g2 = thisRoundBet g /\
  exists f, (f = 0 \/ f = 2 \/ f = 5 # 2) /\
            playerMoney g2 == playerMoney g + thisRoundBet g * f.
Proof.
  unfold resolveRound. rewrite !addRandomCards_one. cbv zeta.
  destruct (sumOptimal _) as [s|]; cbn [liftOpt bindRun stopped];
    [|discriminate].
  destruct (s =? 21)%Z; [apply concludeWith_pays|].
  destruct (playerTurn _ _ _ _ _)
    as [[[[concluded player3] input1] pos4]| | | |];
    cbn [bindRun stopped]; try discriminate.
  destruct concluded; [apply concludeWith_pays|].
  destruct (dealerTurn _ _ _ _) as [[dealer2 pos5]| | | |];
    cbn [bindRun stopped]; try discriminate.
  apply concludeWith_pays.
Qed.

Lemma halfInt_paid (m b f : Q) (bet : Z) :
  halfInt m -> b = inject_Z bet -> (f = 0 \/ f = 2 \/ f = 5 # 2) ->
  forall m', m' == m + b * f -> halfInt m'.
Proof.
  intros [n Hn] -> Hf m' Hm'. unfold halfInt.
  destruct Hf as [-> | [-> | ->]].
  - exists n. rewrite Hm', Hn. ring.
  - exists (n + 4 * bet)%Z. rewrite Hm', Hn.
    unfold inject_Z, Qeq, Qplus, Qmult. cbn [Qnum Qden]. lia.
  - exists (n + 5 * bet)%Z. rewrite Hm', Hn.
    unfold inject_Z, Qeq, Qplus, Qmult. cbn [Qnum Qden]. lia.
Qed.

Lemma playRound_halves (rounds fuel : nat) (rng : Rng) :
  forall g input pos,
    halfInt (playerMoney g) ->
    Forall halfInt (fst (playRound rounds fuel g input rng pos)).
Proof.
  induction rounds as [|rounds IH]; intros g input pos Hg;
    cbn [playRound]; [constructor|].
  destruct (placeBet _ input) as [[g1 input1]| | | |] eqn:Hbet;
    try (cbn [fst]; constructor).
  apply placeBet_spec in Hbet. destruct Hbet as (bet & _ & Hm1 & Hb1).
  cbn [playerMoney] in Hm1.
  assert (H1 : halfInt (playerMoney g1)).
  { destruct Hg as [n Hn]. exists (n - 2 * bet)%Z. rewrite Hm1, Hn.
    unfold inject_Z, Qeq, Qminus, Qplus, Qopp. cbn [Qnum Qden]. lia. }
  destruct (resolveRound fuel g1 input1 rng pos)
    as [[[g2 input2] pos2]| | | |] eqn:Hres;
    try (cbn [fst]; repeat constructor; exact H1).
  apply resolveRound_pays in Hres. destruct Hres as (_ & f & Hf & Hm2).
  pose proof (halfInt_paid _ _ _ _ H1 Hb1 Hf _ Hm2) as H2.
  destruct (Qlt_bool (playerMoney g2) (1 # 1));
    [cbn [fst]; repeat constructor; assumption|].
  destruct (askNewRound input2) as [[[] input3]| | | |];
    try (cbn [fst]; repeat constructor; assumption).
  specialize (IH g2 input3 pos2 H2).
  destruct (playRound rounds fuel g2 input3 rng pos2) as [log r].
  cbn [fst] in *. repeat constructor; assumption.
Qed.

(** X25: in every run of the game, every value the balance takes is a
    whole number of halves, so the [double] that holds it holds it
    exactly. *)
Lemma launchGame_halves (rounds fuel : nat) (input : list string)
  (rng : Rng) :
  Forall halfInt (fst (launchGame rounds fuel input rng)).
Proof.
  assert (H0 : halfInt (playerMoney Blackjack_new)).
  { exists 20%Z. reflexivity. }
  unfold launchGame.
  destruct (askNewRound input) as [[[] input1]| | | |];
    try (cbn [fst]; repeat constructor; exact H0).
  pose proof (playRound_halves rounds fuel rng Blackjack_new input1 0%nat H0)
    as Hlog.
  destruct (playRound rounds fuel Blackjack_new input1 rng 0) as [log r].
  cbn [fst] in *. constructor; [exact H0|exact Hlog].
Qed.

(** C10: the game object [main] builds starts with a balance of exactly
    10 ([MONEY_AT_START]) and a round bet of 0, and 10 is the first value
    of the balance in every run. *)
Theorem session_starts_with_ten :
  MONEY_AT_START = 10 # 1 /\
  playerMoney Blackjack_new = MONEY_AT_START /\
  thisRoundBet Blackjack_new = 0 # 1 /\
  forall rounds fuel input rng,
    exists log, fst (launchGame rounds fuel input rng) = (10 # 1) :: log.
Proof.
  repeat split. intros rounds fuel input rng. unfold launchGame.
  destruct (askNewRound input) as [[[] input1]| | | |];
    try (eexists; reflexivity).
  destruct (playRound rounds fuel Blackjack_new input1 rng 0) as [log r].
  exists log. reflexivity.
Qed.

(** ** Resolution and payment *)



(** C2 at the dealer's blackjack: with the player on 19 and the dealer
    on Ace and King, the outcome is DealerBlackjack, and the payment made
    is the blackjack payment, to the player. *)
Theorem dealer_blackjack_pays_player (m b : Q) (s1 s2 s3 s4 : string) :
  let g := mkBlackjack m b [mkCard "10" s1; mkCard "9" s2]
                       [mkCard "A" s3; mkCard "K" s4] in
  roundOutcome g = Some DealerBlackjack /\
  exists g', concludeRound g = Some g' /\
             playerMoney g' == m + b * (5 # 2).
Proof.
  cbv zeta. split; [vm_compute; reflexivity|].
  eval_round. eexists. split; [reflexivity|].
  cbn [playerMoney]. lra.
Qed.

(** C3 at a tie on 20: the outcome is Push and the balance after the
    round is the balance after the bet was taken, the bet is not given
    back. *)
Theorem push_keeps_the_stake (m b : Q) (s1 s2 s3 s4 : string) :
  let g := mkBlackjack m b [mkCard "10" s1; mkCard "10" s2]
                       [mkCard "10" s3; mkCard "10" s4] in
  roundOutcome g = Some Push /\ concludeRound g = Some g.
Proof.
  cbv zeta. split; [vm_compute; reflexivity|].
  eval_round. reflexivity.
Qed.

(** X26: what [concludeRound] pays, by outcome: a blackjack of either
    side pays the player two and a half times the bet, a plain win twice
    the bet, and a loss or a tie nothing. *)
Lemma settle_by_outcome (g : Blackjack) (p d ps ds : Z) :
  settle g (decideWinner p d ps ds) =
  match outcomeOf (decideWinner p d ps ds) p d with
  | PlayerBlackjack | DealerBlackjack => payout g (thisRoundBet g) (3 # 2)
  | PlayerHigher | DealerBust => payout g (thisRoundBet g) (1 # 1)
  | PlayerBust | DealerHigher | Push => g
  end.
Proof.
  unfold decideWinner.
  destruct (p >? 21)%Z eqn:Hp;
    [unfold outcomeOf, settle; cbn; rewrite Hp; reflexivity|].
  destruct (d >? 21)%Z eqn:Hd;
    [unfold outcomeOf, settle; cbn; rewrite Hd; reflexivity|].
  repeat match goal with
         | |- context [if ?b then _ else _] => destruct b
         end;
    unfold outcomeOf, settle; cbn; rewrite ?Hp, ?Hd;
    destruct (ps =? 2)%Z, (ds =? 2)%Z; reflexivity.
Qed.

(** ** Bets *)

(** C7 at a numeral that does not fit an [int]: the conversion throws,
    nothing catches it, and the program ends instead of asking again. *)
Theorem requestBetAmount_overflow_halts (money : Q) (rest : list string) :
  requestBetAmount money ("99999999999" :: rest) = Halt.
Proof. reflexivity. Qed.

(** The inputs the bet prompt turns down and asks again for, with a
    balance of 10. *)
Lemma requestBetAmount_asks_again (rest : list string) :
  requestBetAmount 10 ("abc" :: rest) = requestBetAmount 10 rest /\
  requestBetAmount 10 ("0" :: rest) = requestBetAmount 10 rest /\
  requestBetAmount 10 ("-5" :: rest) = requestBetAmount 10 rest /\
  requestBetAmount 10 ("11" :: rest) = requestBetAmount 10 rest /\
  requestBetAmount 10 ("10" :: rest) = Ret (10%Z, rest).
Proof. repeat split. Qed.

(** ** Construction of a card *)

(** C4 at the face value 10: the check turns it down, whatever the
    symbol, although the class documents it as valid. *)
Theorem Card_create_refuses_ten (symbol : string) :
  In "10" ranks /\ Card_create "10" symbol = inl InvalidRank.
Proof.
  split; [|reflexivity]. unfold ranks. simpl. tauto.
Qed.

(** The check lets through face values that are no rank, such as 25. *)
Lemma Card_create_accepts_25 :
  ~ In "25" ranks /\
  Card_create "25" "hearts" = inr (mkCard "25" "hearts").
Proof.
  split; [|reflexivity]. unfold ranks. simpl.
  intros H. repeat (destruct H as [H|H]; [discriminate|]). exact H.
Qed.

(** The other twelve ranks pass the check. *)
Lemma errorCheckCardValue_ranks (f : string) :
  In f ranks -> f <> "10" -> errorCheckCardValue f = inr tt.
Proof.
  unfold ranks. intros H Hne.
  repeat (destruct H as [<-|H]); try contradiction;
    try reflexivity; exfalso; apply Hne; reflexivity.
Qed.

(** X27: the symbol check lets through exactly the four suits. *)
Lemma errorCheckCardSymbol_exact (s : string) :
  errorCheckCardSymbol s = inr tt <-> In s suits.
Proof.
  unfold errorCheckCardSymbol, cardSymbolRejected, str_ne, suits.
  cbn [In]. split.
  - destruct (String.eqb_spec s "hearts"); [subst; auto 10|].
    destruct (String.eqb_spec s "diamonds"); [subst; auto 10|].
    destruct (String.eqb_spec s "clubs"); [subst; auto 10|].
    destruct (String.eqb_spec s "spades"); [subst; auto 10|].
    cbn. discriminate.
  - intros H. repeat (destruct H as [<-|H]); try contradiction; reflexivity.
Qed.

(** ** Removal of the last card *)

(** C8 as stated fails: on the empty hand the removal is not guarded. *)
Lemma removeLastCard_empty_counterexample :
  guarded (removeLastCard []) = false.
Proof. reflexivity. Qed.

(** C8, amended: on a hand that is not empty [removeLastCard] removes
    exactly the card added last and leaves the others as they were; on
    the empty hand it is a bare [pop_back()], with no branch for the
    empty hand. *)
Theorem removeLastCard_spec :
  (forall (h : Hand) (c : Card), removeLastCard (addCard h c) = Ret h) /\
  removeLastCard [] = Undefined.
Proof.
  split; [|reflexivity]. intros h c. unfold addCard, removeLastCard.
  destruct (h ++ [c]) eqn:E.
  - destruct h; discriminate.
  - rewrite <- E, removelast_last. reflexivity.
Qed.

(** ** Two runs of the whole game *)

(** The player bets 4 of 10, stands on 19, and the dealer turns Ace and
    King: the balance goes from 6 to 16. *)
Example dealer_blackjack_run :
  Forall2 Qeq
    (fst (launchGame 2 20 ["s"; "4"; "s"; "q"]
            (rngOf [0; 0; 9; 0; 8; 0; 12; 0]%N)))
    [10; 6; 16].
Proof. vm_compute. repeat constructor. Qed.

(** The player bets 4 of 10 and both sides stand on 20: the balance
    stays at 6. *)
Example push_run :
  Forall2 Qeq
    (fst (launchGame 2 20 ["s"; "4"; "s"; "q"]
            (rngOf [9; 0; 9; 0; 9; 0; 9; 0]%N)))
    [10; 6; 6].
Proof. vm_compute. repeat constructor. Qed.

(** * Further properties of the classes *)

Local Open Scope Z_scope.

(** ** Cards *)

Lemma random_symbol_in_suits (r : N) :
  In (generateRandomCardSymbolString r) suits.
Proof.
  unfold generateRandomCardSymbolString. cbv zeta.
  assert (Hm : 0 <= Z.rem (Z.of_N r) 4 < 4).
  { apply Z.rem_bound_pos; lia. }
  remember (Z.rem (Z.of_N r) 4) as m eqn:Em. clear Em.
  assert (Hcases : m = 0 \/ m = 1 \/ m = 2 \/ m = 3) by lia.
  repeat (destruct Hcases as [->|Hcases]); try subst m; vm_compute; tauto.
Qed.

(** X1: the default constructor always makes a card whose face value is
    one of the thirteen ranks and whose symbol is one of the four
    suits, and it takes two numbers from the random source. *)
Theorem Card_random_valid (rng : Rng) (pos : nat) :
  In (faceValueString (fst (Card_random rng pos))) ranks /\
  In (symbolString (fst (Card_random rng pos))) suits /\
  snd (Card_random rng pos) = S (S pos).
Proof.
  unfold Card_random. cbn [fst snd faceValueString symbolString].
  split; [apply random_face_in_ranks|].
  split; [apply random_symbol_in_suits|reflexivity].
Qed.

(** X2: every one of the 52 cards can come out of the default
    constructor. *)
Theorem Card_random_covers (f s : string) :
  In f ranks -> In s suits ->
  exists r1 r2 : N, fst (Card_random (rngOf [r1; r2]) 0) = mkCard f s.
Proof.
  unfold ranks, suits. intros Hf Hs.
  assert (Hface : exists r1, generateRandomCardValueString r1 = f).
  { repeat (destruct Hf as [<-|Hf]); try contradiction;
      [exists 1%N|exists 2%N|exists 3%N|exists 4%N|exists 5%N|exists 6%N
       |exists 7%N|exists 8%N|exists 9%N|exists 10%N|exists 11%N
       |exists 12%N|exists 0%N]; reflexivity. }
  assert (Hsym : exists r2, generateRandomCardSymbolString r2 = s).
  { repeat (destruct Hs as [<-|Hs]); try contradiction;
      [exists 0%N|exists 2%N|exists 3%N|exists 1%N]; reflexivity. }
  destruct Hface as [r1 <-]. destruct Hsym as [r2 <-].
  exists r1, r2. reflexivity.
Qed.

Lemma Card_random_covers_witness :
  exists r1 r2 : N,
    fst (Card_random (rngOf [r1; r2]) 0) = mkCard "10" "spades".
Proof.
  apply (Card_random_covers "10" "spades"); simpl; tauto.
Defined.

(** X3: for a card whose face value is a rank, the game value is defined,
    lies between 2 and 11, is 11 exactly for the Ace and 10 exactly for
    10, J, Q and K. *)
Theorem getGameValue_ranks (f s : string) :
  In f ranks ->
  exists v,
    getGameValue (mkCard f s) = Some v /\ 2 <= v <= 11 /\
    (v = 11 <-> isAce (mkCard f s) = true) /\
    (v = 10 <-> In f ["10"; "J"; "Q"; "K"]) /\
    (v < 10 -> f = to_string v).
Proof.
  unfold ranks. intros H.
  repeat (destruct H as [<-|H]); try contradiction;
    vm_compute; eexists; (split; [reflexivity|]);
    repeat split; intros; try discriminate; try tauto;
    repeat match goal with
           | H : _ \/ _ |- _ => destruct H
           | H : False |- _ => destruct H
           end; try discriminate.
Qed.

Lemma getGameValue_ranks_witness :
  exists v,
    getGameValue (mkCard "Q" "clubs") = Some v /\ 2 <= v <= 11 /\
    (v = 11 <-> isAce (mkCard "Q" "clubs") = true) /\
    (v = 10 <-> In "Q" ["10"; "J"; "Q"; "K"]) /\
    (v < 10 -> "Q" = to_string v).
Proof.
  apply (getGameValue_ranks "Q" "clubs"). unfold ranks. simpl. tauto.
Defined.

Lemma cardValueRejected_faceAccepted (f : string) :
  cardValueRejected f = negb (faceAccepted f).
Proof.
  destruct f as [|c [|c' r']];
    [reflexivity
    |destruct c as [[] [] [] [] [] [] [] []]; reflexivity
    |destruct c as [[] [] [] [] [] [] [] []]; reflexivity].
Qed.

Lemma cardSymbolRejected_suits (s : string) :
  cardSymbolRejected s = false <-> In s suits.
Proof.
  unfold cardSymbolRejected, str_ne, suits. cbn [In]. split.
  - destruct (String.eqb_spec s "hearts"); [subst; auto 10|].
    destruct (String.eqb_spec s "diamonds"); [subst; auto 10|].
    destruct (String.eqb_spec s "clubs"); [subst; auto 10|].
    destruct (String.eqb_spec s "spades"); [subst; auto 10|].
    cbn. discriminate.
  - intros H. repeat (destruct H as [<-|H]); try contradiction; reflexivity.
Qed.

(** X4: what the face-value check really lets through: the strings that
    start with a digit from 2 to 8 (whatever follows), and the five
    strings 9, J, Q, K and A. *)
Theorem errorCheckCardValue_exact (f : string) :
  errorCheckCardValue f = inr tt <-> faceAccepted f = true.
Proof.
  unfold errorCheckCardValue. rewrite cardValueRejected_faceAccepted.
  destruct (faceAccepted f); cbn [negb]; split; intros E;
    try reflexivity; discriminate.
Qed.

Lemma readDigits_ge (s : string) :
  forall acc seen, 0 <= acc -> acc <= fst (readDigits s acc seen).
Proof.
  induction s as [|c r IH]; intros acc seen Hacc; cbn [readDigits fst];
    [lia|].
  destruct (isdigit c) eqn:Hd; cbn [fst]; [|lia].
  apply isdigit_range in Hd.
  specialize (IH (10 * acc + digitValue c) true). unfold digitValue in *. lia.
Qed.

Lemma stoi_digitLed (f : string) (v : Z) :
  digitLed f = true -> stoi f = Parsed v -> 2 <= v.
Proof.
  destruct f as [|c r]; [discriminate|]. unfold digitLed. cbv zeta.
  intros Hc. apply andb_prop in Hc. destruct Hc as [Hlo Hhi].
  apply Z.leb_le in Hlo. apply Z.leb_le in Hhi.
  assert (Hsp : isspace c = false).
  { unfold isspace.
    destruct (Z.eqb_spec (Z.of_N (N_of_ascii c)) 32); [lia|].
    destruct (Z.leb_spec (Z.of_N (N_of_ascii c)) 13); [lia|].
    rewrite andb_false_r. reflexivity. }
  assert (Hdig : isdigit c = true).
  { unfold isdigit. cbv zeta. apply andb_true_intro.
    split; apply Z.leb_le; lia. }
  assert (Hval : 2 <= digitValue c) by (unfold digitValue; lia).
  unfold stoi. simpl skipSpaces. rewrite Hsp.
  destruct c as [[] [] [] [] [] [] [] []];
    try (vm_compute in Hlo; exfalso; apply Hlo; reflexivity);
    try (vm_compute in Hhi; exfalso; apply Hhi; reflexivity);
    cbn [readDigits]; rewrite Hdig;
    match goal with
    | |- context [readDigits ?t ?a ?b] =>
        pose proof (readDigits_ge t a b ltac:(lia)) as Hn;
        destruct (readDigits t a b) as [w seen]
    end; cbn [fst] in Hn;
    destruct seen; cbn [negb]; try discriminate;
    match goal with
    | |- context [if ?b then _ else _] => destruct b
    end; intros E; inversion E; subst; lia.
Qed.

Lemma digitLed_between (f : string) :
  digitLed f = true -> str_ge f "2" && str_le f "9" = true.
Proof.
  destruct f as [|c [|c' r']]; [discriminate| |];
    destruct c as [[] [] [] [] [] [] [] []];
    try reflexivity; intros H; vm_compute in H; discriminate H.
Qed.

Lemma faceAccepted_value (f s : string) (v : Z) :
  faceAccepted f = true \/ f = "10" ->
  getGameValue (mkCard f s) = Some v -> 2 <= v.
Proof.
  intros [Hacc| ->]; [|intros E; vm_compute in E; inversion E; lia].
  unfold faceAccepted in Hacc.
  repeat (apply orb_prop in Hacc; destruct Hacc as [Hacc|Hacc]);
    try (apply String.eqb_eq in Hacc; subst f;
         intros E; vm_compute in E; inversion E; lia).
  unfold getGameValue. cbv zeta. cbn [faceValueString].
  rewrite (digitLed_between f Hacc).
  destruct (stoi f) as [w| |] eqn:Hs; try discriminate.
  intros E. inversion E; subst. eapply stoi_digitLed; eassumption.
Qed.

Lemma Card_create_inr (f s : string) (c : Card) :
  Card_create f s = inr c ->
  c = mkCard f s /\ faceAccepted f = true /\ In s suits.
Proof.
  unfold Card_create, errorCheckCardValue, errorCheckCardSymbol.
  rewrite cardValueRejected_faceAccepted.
  destruct (faceAccepted f); cbn [negb]; [|discriminate].
  destruct (cardSymbolRejected s) eqn:Hs; [discriminate|].
  intros E. inversion E. repeat split.
  apply cardSymbolRejected_suits. exact Hs.
Qed.

Lemma rank_accepted (f : string) :
  In f ranks -> faceAccepted f = true \/ f = "10".
Proof.
  unfold ranks. intros H.
  repeat (destruct H as [<-|H]); try contradiction;
    try (left; reflexivity); right; reflexivity.
Qed.

Lemma built_fields (c : Card) :
  built c ->
  In (symbolString c) suits /\
  (faceAccepted (faceValueString c) = true \/ faceValueString c = "10").
Proof.
  induction 1 as [rng pos|f s c Hc|c c' f Hb IH Hset|c c' s Hb IH Hset].
  - unfold Card_random. cbn [fst faceValueString symbolString].
    split; [apply random_symbol_in_suits|].
    apply rank_accepted, random_face_in_ranks.
  - apply Card_create_inr in Hc. destruct Hc as (-> & Hf & Hs).
    cbn [faceValueString symbolString]. tauto.
  - unfold setFaceValue, errorCheckCardValue in Hset.
    rewrite cardValueRejected_faceAccepted in Hset.
    destruct (faceAccepted f) eqn:Hf; cbn [negb] in Hset; [|discriminate].
    inversion Hset; subst. cbn [faceValueString symbolString]. tauto.
  - unfold setSymbol, errorCheckCardSymbol in Hset.
    destruct (cardSymbolRejected s) eqn:Hs; [discriminate|].
    inversion Hset; subst. cbn [faceValueString symbolString].
    split; [apply cardSymbolRejected_suits; exact Hs|tauto].
Qed.

(** X5: every card a program can hold (made by either constructor, then
    changed by the setters) has one of the four suits as its symbol and
    a face value that is 10 or passes the check; its icon is defined;
    and its game value, when [getGameValue] returns, is at least 2: the
    fallback value 0 is never reached. *)
Theorem built_invariant (c : Card) :
  built c ->
  In (symbolString c) suits /\
  (faceAccepted (faceValueString c) = true \/ faceValueString c = "10") /\
  (exists icon, cardSymbolStringToIconChar (symbolString c) = Ret icon) /\
  (forall v, getGameValue c = Some v -> 2 <= v).
Proof.
  intros Hb. destruct (built_fields c Hb) as [Hs Hf].
  split; [exact Hs|]. split; [exact Hf|]. split.
  - unfold suits in Hs. cbn [In] in Hs.
    repeat (destruct Hs as [<-|Hs]); try contradiction;
      eexists; reflexivity.
  - intros v Hv. destruct c as [f s]. cbn [faceValueString] in Hf.
    eapply faceAccepted_value; eassumption.
Qed.

Lemma built_invariant_witness :
  In (symbolString (mkCard "7" "clubs")) suits /\
  (faceAccepted (faceValueString (mkCard "7" "clubs")) = true \/
   faceValueString (mkCard "7" "clubs") = "10") /\
  (exists icon,
     cardSymbolStringToIconChar (symbolString (mkCard "7" "clubs"))
     = Ret icon) /\
  (forall v, getGameValue (mkCard "7" "clubs") = Some v -> 2 <= v).
Proof.
  apply (built_invariant (mkCard "7" "clubs")).
  apply (built_create "7" "clubs"). reflexivity.
Defined.

(** X6: the icon of a symbol is defined exactly for the four suits, and
    two suits never share an icon. *)
Theorem cardSymbolStringToIconChar_suits (s t : string) :
  ((exists icon, cardSymbolStringToIconChar s = Ret icon) <-> In s suits) /\
  (In s suits -> In t suits ->
   cardSymbolStringToIconChar s = cardSymbolStringToIconChar t -> s = t).
Proof.
  split.
  - unfold cardSymbolStringToIconChar, suits. cbn [In]. split.
    + destruct (String.eqb_spec s "hearts"); [subst; auto 10|].
      destruct (String.eqb_spec s "diamonds"); [subst; auto 10|].
      destruct (String.eqb_spec s "clubs"); [subst; auto 10|].
      destruct (String.eqb_spec s "spades"); [subst; auto 10|].
      intros [icon E]. discriminate.
    + intros H. repeat (destruct H as [<-|H]); try contradiction;
        eexists; reflexivity.
  - unfold suits. cbn [In]. intros Hs Ht.
    repeat (destruct Hs as [<-|Hs]); try contradiction;
      repeat (destruct Ht as [<-|Ht]); try contradiction;
      vm_compute; intros E; try reflexivity; discriminate.
Qed.

(** ** Hands *)

Lemma addRandomCards_loop_spec (rng : Rng) (n : nat) :
  forall pos h,
    exists new,
      addRandomCards_loop n rng pos h = (h ++ new, (pos + 2 * n)%nat) /\
      List.length new = n /\
      Forall (fun c => In (faceValueString c) ranks /\
                       In (symbolString c) suits) new.
Proof.
  induction n as [|n IH]; intros pos h; cbn [addRandomCards_loop].
  - exists []. rewrite app_nil_r, Nat.add_0_r. repeat split. constructor.
  - unfold Card_random at 1.
    destruct (IH (S (S pos))
                 (h ++ [mkCard (generateRandomCardValueString (rng pos))
                          (generateRandomCardSymbolString (rng (S pos)))]))
      as (new & Heq & Hlen & Hall).
    eexists (_ :: new). rewrite Heq, <- app_assoc. cbn [app].
    split; [f_equal; lia|]. split; [cbn [List.length]; lia|].
    constructor; [|exact Hall]. cbn [faceValueString symbolString].
    split; [apply random_face_in_ranks|apply random_symbol_in_suits].
Qed.

(** X7: [addRandomCards] keeps the cards of the hand and puts behind them
    as many new cards as asked for (none for an amount of 0 or below),
    each with a valid rank and suit, taking two random numbers a card. *)
Theorem addRandomCards_spec (amountOfCardsToAdd : Z) (rng : Rng) (pos : nat)
  (h : Hand) :
  exists new,
    addRandomCards amountOfCardsToAdd rng pos h
    = (h ++ new, (pos + 2 * Z.to_nat amountOfCardsToAdd)%nat) /\
    Z.of_nat (List.length new) = Z.max 0 amountOfCardsToAdd /\
    Forall (fun c => In (faceValueString c) ranks /\
                     In (symbolString c) suits) new.
Proof.
  unfold addRandomCards.
  destruct (addRandomCards_loop_spec rng (Z.to_nat amountOfCardsToAdd) pos h)
    as (new & Heq & Hlen & Hall).
  exists new. split; [exact Heq|]. split; [lia|exact Hall].
Qed.

(** X8: after [addCard] the new card is at the index the size was, the
    cards before it are where they were, and the size is one more. *)
Theorem addCard_getCardAtIndex (h : Hand) (c : Card) (index : Z) :
  getCardAtIndex (addCard h c) (getSize h) = Some c /\
  getSize (addCard h c) = getSize h + 1 /\
  (0 <= index < getSize h ->
   getCardAtIndex (addCard h c) index = getCardAtIndex h index /\
   getCardAtIndex h index <> None) /\
  (index < 0 \/ getSize h <= index -> getCardAtIndex h index = None).
Proof.
  unfold getCardAtIndex, addCard, getSize. repeat split.
  - destruct (Z.ltb_spec (Z.of_nat (List.length h)) 0); [lia|].
    rewrite Nat2Z.id, nth_error_app2, Nat.sub_diag by lia. reflexivity.
  - rewrite length_app. cbn [List.length]. lia.
  - destruct (Z.ltb_spec index 0); [lia|].
    apply nth_error_app1. lia.
  - destruct (Z.ltb_spec index 0); [lia|].
    apply nth_error_Some. lia.
  - intros [Hneg|Hbig].
    + destruct (Z.ltb_spec index 0); [reflexivity|lia].
    + destruct (Z.ltb_spec index 0); [reflexivity|].
      apply nth_error_None. lia.
Qed.

Lemma skipn_nth_error (h : Hand) (k : nat) (c : Card) :
  nth_error h k = Some c -> skipn k h = c :: skipn (S k) h.
Proof.
  revert k. induction h as [|d r IH]; intros k Hk.
  - destruct k; discriminate.
  - destruct k as [|k]; cbn in Hk |- *.
    + inversion Hk. reflexivity.
    + apply IH. exact Hk.
Qed.

Lemma getSection_loop_spec (h : Hand) (n : nat) :
  forall i partOfHand,
    1 <= i ->
    getSection_loop n i h partOfHand
    = Ret (partOfHand ++ firstn n (skipn (Z.to_nat (i - 1)) h)).
Proof.
  induction n as [|n IH]; intros i acc Hi; cbn [getSection_loop].
  - cbn [firstn]. rewrite app_nil_r. reflexivity.
  - destruct (Z.leb_spec 0 i) as [_|Hneg]; [|lia]. cbn [andb].
    replace (Z.to_nat (i + 1 - 1)) with (S (Z.to_nat (i - 1)))
      in IH by lia.
    destruct (Z.leb_spec i (getSize h)) as [Hin|Hout]; unfold getSize in *.
    + unfold getCardAtIndex.
      destruct (Z.ltb_spec (i - 1) 0) as [Hbad|_]; [lia|].
      destruct (nth_error h (Z.to_nat (i - 1))) as [c|] eqn:Hc.
      * rewrite IH by lia.
        replace (Z.to_nat (i + 1 - 1)) with (S (Z.to_nat (i - 1))) by lia.
        rewrite (skipn_nth_error _ _ _ Hc). cbn [firstn].
        rewrite <- app_assoc. reflexivity.
      * apply nth_error_None in Hc. lia.
    + rewrite IH by lia.
      replace (Z.to_nat (i + 1 - 1)) with (S (Z.to_nat (i - 1))) by lia.
      rewrite !skipn_all2 by lia. rewrite !firstn_nil. reflexivity.
Qed.

Lemma getSectionOfHand_inside (h : Hand) (start end_ : Z) :
  1 <= start -> end_ < INT_MAX ->
  getSectionOfHand h start end_
  = Ret (firstn (Z.to_nat (end_ - start + 1))
                (skipn (Z.to_nat (start - 1)) h)).
Proof.
  intros Hs He. unfold getSectionOfHand.
  destruct (Z.ltb_spec end_ start) as [Hlt|Hge].
  - replace (Z.to_nat (end_ - start + 1)) with 0%nat by lia. reflexivity.
  - destruct (Z.eqb_spec end_ INT_MAX) as [Hmax|_]; [lia|].
    rewrite getSection_loop_spec by exact Hs. reflexivity.
Qed.

(** X9: for a first position of 1 or more, [getSectionOfHand] gives the
    cards from position [start] to position [end] (counted from 1, both
    included), cut at the end of the hand; it is empty when [end] is
    below [start] or [start] is beyond the hand. *)
Theorem getSectionOfHand_spec (h : Hand) (start end_ : Z) :
  1 <= start -> end_ < INT_MAX ->
  getSectionOfHand h start end_
  = Ret (firstn (Z.to_nat (end_ - start + 1))
                (skipn (Z.to_nat (start - 1)) h)).
Proof. apply getSectionOfHand_inside. Qed.

Lemma getSectionOfHand_spec_witness :
  getSectionOfHand [card "2"; card "3"; card "4"; card "5"] 2 3
  = Ret (firstn (Z.to_nat (3 - 2 + 1))
                (skipn (Z.to_nat (2 - 1))
                       [card "2"; card "3"; card "4"; card "5"])).
Proof.
  apply (getSectionOfHand_spec
           [card "2"; card "3"; card "4"; card "5"] 2 3);
    unfold INT_MAX; lia.
Defined.

Lemma getSection_loop_before (h : Hand) (n : nat) :
  forall i partOfHand,
    i <= 0 -> - i < Z.of_nat n ->
    getSection_loop n i h partOfHand = Undefined.
Proof.
  induction n as [|n IH]; intros i acc Hi Hn; [lia|].
  cbn [getSection_loop].
  destruct (Z.eq_dec i 0) as [->|Hne].
  - unfold getSize. destruct (Z.leb_spec 0 (Z.of_nat (List.length h)));
      [|lia].
    reflexivity.
  - destruct (Z.leb_spec 0 i) as [Hbad|_]; [lia|]. cbn [andb].
    apply IH; lia.
Qed.

(** X10: a section that starts at position 0 or below and reaches
    position 0 reads the vector at index -1: the call is undefined
    whatever the hand. *)
Theorem getSectionOfHand_position_zero (h : Hand) (start end_ : Z) :
  start <= 0 -> 0 <= end_ -> getSectionOfHand h start end_ = Undefined.
Proof.
  intros Hs He. unfold getSectionOfHand.
  destruct (Z.ltb_spec end_ start) as [Hlt|Hge]; [lia|].
  destruct (Z.eqb_spec end_ INT_MAX) as [Hmax|_]; [reflexivity|].
  apply getSection_loop_before; lia.
Qed.

Lemma getSectionOfHand_position_zero_witness :
  getSectionOfHand [card "2"; card "3"] 0 1 = Undefined.
Proof.
  apply (getSectionOfHand_position_zero [card "2"; card "3"] 0 1); lia.
Defined.

Lemma concat_chunks (n : nat) :
  forall l, List.concat (chunks n l) = firstn (6 * n) l.
Proof.
  induction n as [|n IH]; intros l; cbn [chunks List.concat].
  - reflexivity.
  - rewrite IH. replace (6 * S n)%nat with (6 + 6 * n)%nat by lia.
    rewrite <- (firstn_skipn 6 l) at 3.
    rewrite firstn_app, firstn_firstn, length_firstn.
    destruct (Nat.le_gt_cases 6 (List.length l)) as [Hlong|Hshort].
    + replace (Nat.min (6 + 6 * n) 6) with 6%nat by lia.
      replace (6 + 6 * n - Nat.min 6 (List.length l))%nat
        with (6 * n)%nat by lia.
      reflexivity.
    + replace (Nat.min (6 + 6 * n) 6) with 6%nat by lia.
      rewrite (skipn_all2 l) by lia. rewrite !firstn_nil. reflexivity.
Qed.

Lemma chunks_lengths (n : nat) :
  forall l,
    (6 * n < List.length l + 6)%nat ->
    Forall (fun r => (1 <= List.length r <= 6)%nat) (chunks n l).
Proof.
  induction n as [|n IH]; intros l Hl; cbn [chunks]; constructor.
  - rewrite length_firstn. lia.
  - apply IH. rewrite length_skipn. lia.
Qed.

Lemma chunks_length (n : nat) (l : list Card) :
  List.length (chunks n l) = n.
Proof.
  revert l. induction n as [|n IH]; intros l; cbn [chunks List.length];
    [reflexivity|]. rewrite IH. reflexivity.
Qed.

Lemma printHorizontal_loop_spec (h : Hand) (n : nat) :
  forall rowOfCards,
    1 <= rowOfCards ->
    6 * (rowOfCards + Z.of_nat n) <= INT_MAX + 5 ->
    printHorizontal_loop n rowOfCards h
    = Ret (chunks n (skipn (Z.to_nat (6 * (rowOfCards - 1))) h)).
Proof.
  induction n as [|n IH]; intros row Hrow Hmax;
    cbn [printHorizontal_loop chunks]; [reflexivity|].
  unfold MAX_CARDS_PER_PRINT_ROW.
  destruct (Z.gtb_spec (6 * row) INT_MAX) as [Hbad|_]; [lia|].
  rewrite getSectionOfHand_inside by (unfold INT_MAX in *; lia).
  cbn [bindRun]. rewrite IH by lia. cbn [bindRun].
  replace (Z.to_nat (6 * row - (6 * row - 6 + 1) + 1)) with 6%nat by lia.
  replace (Z.to_nat (6 * row - 6 + 1 - 1))
    with (Z.to_nat (6 * (row - 1))) by lia.
  rewrite skipn_skipn.
  replace (Z.to_nat (6 * (row + 1 - 1)))
    with (6 + Z.to_nat (6 * (row - 1)))%nat by lia.
  reflexivity.
Qed.

(** X11: for a hand that is not empty, [printHorizontal] prints every
    card once, in the order of the hand, in rows of six with the rest in
    the last row: no row is empty and there are as many rows as the
    cards need. *)
Theorem printHorizontal_rows (size_bits : Z) (h : Hand) :
  32 <= size_bits -> 1 <= getSize h <= INT_MAX - 6 ->
  exists rows,
    printHorizontal size_bits h = Ret rows /\
    List.concat rows = h /\
    Forall (fun r => (1 <= List.length r <= 6)%nat) rows /\
    Z.of_nat (List.length rows) = (getSize h + 5) / 6.
Proof.
  intros Hbits Hsize. unfold printHorizontal.
  assert (Hpow : 2 ^ 32 <= 2 ^ size_bits).
  { apply Z.pow_le_mono_r; lia. }
  assert (Hrows : amountOfRows size_bits h = (getSize h - 1) / 6 + 1).
  { unfold amountOfRows, MAX_CARDS_PER_PRINT_ROW. cbv zeta.
    unfold INT_MAX in Hsize.
    assert (Hq : 0 <= (getSize h - 1) / 6 <= getSize h - 1).
    { split; [apply Z.div_pos; lia|].
      apply Z.div_le_upper_bound; lia. }
    rewrite (Z.mod_small (getSize h - 1)) by lia.
    rewrite (Z.mod_small ((getSize h - 1) / 6 + 1)) by lia.
    rewrite to_unsigned_small by (unfold INT_MAX; lia).
    apply to_signed_small. unfold INT_MAX. lia. }
  rewrite Hrows.
  assert (Hdiv : 6 * ((getSize h - 1) / 6) <= getSize h - 1
                 < 6 * ((getSize h - 1) / 6) + 6).
  { pose proof (Z.div_mod (getSize h - 1) 6 ltac:(lia)).
    pose proof (Z.mod_pos_bound (getSize h - 1) 6 ltac:(lia)). lia. }
  assert (Hq0 : 0 <= (getSize h - 1) / 6) by (apply Z.div_pos; lia).
  rewrite printHorizontal_loop_spec by (unfold INT_MAX in *; lia).
  cbn [skipn Z.to_nat Z.mul Z.sub Z.add Z.opp Z.pos_sub].
  change (Z.to_nat (6 * (1 - 1))) with 0%nat. cbn [skipn].
  eexists. split; [reflexivity|]. unfold getSize in *.
  split; [|split].
  - rewrite concat_chunks. apply firstn_all2. lia.
  - apply chunks_lengths. lia.
  - rewrite chunks_length.
    replace (Z.of_nat (List.length h) + 5)
      with (Z.of_nat (List.length h) - 1 + 1 * 6) by lia.
    rewrite Z.div_add by lia. lia.
Qed.

Lemma printHorizontal_rows_witness :
  exists rows,
    printHorizontal 64 (map card ["2"; "3"; "4"; "5"; "6"; "7"; "8"]) = Ret rows
    /\ List.concat rows = map card ["2"; "3"; "4"; "5"; "6"; "7"; "8"] /\
    Forall (fun r => (1 <= List.length r <= 6)%nat) rows /\
    Z.of_nat (List.length rows)
    = (getSize (map card ["2"; "3"; "4"; "5"; "6"; "7"; "8"]) + 5) / 6.
Proof.
  apply (printHorizontal_rows 64
           (map card ["2"; "3"; "4"; "5"; "6"; "7"; "8"])).
  - lia.
  - unfold INT_MAX. cbn. lia.
Defined.

Lemma printHorizontal_loop_overflow (h : Hand) (n : nat) :
  forall rowOfCards,
    1 <= rowOfCards -> (1 <= n)%nat ->
    INT_MAX < 6 * (rowOfCards + Z.of_nat n - 1) ->
    printHorizontal_loop n rowOfCards h = Undefined.
Proof.
  induction n as [|n IH]; intros row Hrow Hn Hmax; [lia|].
  cbn [printHorizontal_loop]. unfold MAX_CARDS_PER_PRINT_ROW.
  destruct (Z.gtb_spec (6 * row) INT_MAX) as [Hbad|Hok]; [reflexivity|].
  rewrite getSectionOfHand_inside by (unfold INT_MAX in *; lia).
  cbn [bindRun]. rewrite IH by lia. reflexivity.
Qed.

(** X12: for the empty hand (the player's hand when the dealer's first
    card is shown) the row count is computed from the size minus one in
    the unsigned type of the size. With a size of 64 bits it wraps to a
    negative [int] and no row is printed; with a size of 32 bits it is
    715827883 rows, and the loop runs into an overflow of its [int]
    row arithmetic. *)
Theorem printHorizontal_empty :
  amountOfRows 64 [] = -1431655765 /\ printHorizontal 64 [] = Ret [] /\
  amountOfRows 32 [] = 715827883 /\ printHorizontal 32 [] = Undefined.
Proof.
  split; [reflexivity|]. split; [reflexivity|]. split; [reflexivity|].
  unfold printHorizontal.
  apply printHorizontal_loop_overflow.
  - lia.
  - change (amountOfRows 32 []) with 715827883. lia.
  - change (amountOfRows 32 []) with 715827883. unfold INT_MAX. lia.
Qed.

(** ** The optimal sum *)

Lemma sumOptimal_nominal (h : Hand) :
  sumOptimal h =
  match nominalTotal h with
  | Some t => Some (to_unsigned (reduceAces t (countAces h)))
  | None => None
  end.
Proof.
  unfold sumOptimal. rewrite sumCards_acc.
  destruct (nominalTotal h) as [t|]; reflexivity.
Qed.

Lemma nominalTotal_perm (h h' : Hand) :
  Permutation h h' -> nominalTotal h = nominalTotal h'.
Proof.
  induction 1 as [|c l l' Hp IH|c d l|l l' l'' H1 IH1 H2 IH2];
    cbn [nominalTotal].
  - reflexivity.
  - rewrite IH. reflexivity.
  - destruct (getGameValue c), (getGameValue d), (nominalTotal l);
      try reflexivity. f_equal. lia.
  - congruence.
Qed.

Lemma countAces_perm (h h' : Hand) :
  Permutation h h' -> countAces h = countAces h'.
Proof.
  induction 1 as [|c l l' Hp IH|c d l|l l' l'' H1 IH1 H2 IH2].
  - reflexivity.
  - rewrite !countAces_cons, IH. reflexivity.
  - rewrite !countAces_cons. lia.
  - congruence.
Qed.

(** X13: the optimal sum does not depend on the order of the cards in
    the hand. *)
Theorem sumOptimal_perm (h h' : Hand) :
  Permutation h h' -> sumOptimal h = sumOptimal h'.
Proof.
  intros Hp. rewrite !sumOptimal_nominal.
  rewrite (nominalTotal_perm h h' Hp), (countAces_perm h h' Hp).
  reflexivity.
Qed.

Lemma sumOptimal_perm_witness :
  sumOptimal [card "A"; card "9"; card "5"]
  = sumOptimal [card "5"; card "A"; card "9"].
Proof.
  apply sumOptimal_perm.
  apply Permutation_sym, (Permutation_cons_app [card "A"; card "9"] []).
  apply Permutation_refl.
Defined.

(** X14: the optimal sum lies between the total with every Ace at 1 and
    the nominal total; it is above 21 exactly when the total with every
    Ace at 1 is, and then it is that total. *)
Theorem sumOptimal_bust_iff (h : Hand) (t : Z) :
  nominalTotal h = Some t -> t <= INT_MAX ->
  exists s low,
    sumOptimal h = Some s /\ lowTotal h = Some low /\
    low <= s <= t /\ (21 < s <-> 21 < low) /\ (21 < s -> s = low).
Proof.
  intros Ht Hmax.
  destruct (sumOptimal_value h t Ht Hmax)
    as (j & Hj & Hsum & Hstop & Hbefore).
  exists (t - 10 * j), (t - 10 * countAces h).
  split; [exact Hsum|]. split; [apply lowTotal_char; exact Ht|].
  split; [lia|]. split; [split; intros Hb; lia|]. lia.
Qed.

Lemma sumOptimal_bust_iff_witness :
  exists s low,
    sumOptimal [card "A"; card "K"; card "Q"; card "2"] = Some s /\
    lowTotal [card "A"; card "K"; card "Q"; card "2"] = Some low /\
    low <= s <= 33 /\ (21 < s <-> 21 < low) /\ (21 < s -> s = low).
Proof.
  apply (sumOptimal_bust_iff [card "A"; card "K"; card "Q"; card "2"] 33).
  - reflexivity.
  - unfold INT_MAX. lia.
Defined.

(** ** One more card *)

Lemma countAces_snoc (h : Hand) (c : Card) :
  countAces (h ++ [c]) = countAces h + (if isAce c then 1 else 0).
Proof.
  induction h as [|d r IH]; cbn [app].
  - rewrite countAces_cons. change (countAces []) with 0. lia.
  - rewrite !countAces_cons, IH. lia.
Qed.

Lemma rank_cases (f s : string) :
  In f ranks ->
  (isAce (mkCard f s) = true /\ getGameValue (mkCard f s) = Some 11) \/
  (isAce (mkCard f s) = false /\
   exists v, getGameValue (mkCard f s) = Some v /\ 2 <= v <= 10).
Proof.
  unfold ranks. intros H.
  repeat (destruct H as [<-|H]); try contradiction;
    try (left; split; reflexivity);
    right; (split; [reflexivity|]); eexists;
    (split; [vm_compute; reflexivity|]); lia.
Qed.

Lemma Card_random_cases (rng : Rng) (pos : nat) :
  let c := fst (Card_random rng pos) in
  (isAce c = true /\ getGameValue c = Some 11) \/
  (isAce c = false /\ exists v, getGameValue c = Some v /\ 2 <= v <= 10).
Proof.
  unfold Card_random. cbn [fst]. apply rank_cases, random_face_in_ranks.
Qed.

(** While the optimal sum is at most 21, the nominal total is small. *)
Lemma nominalTotal_small (h : Hand) (t s : Z) :
  nominalTotal h = Some t -> t <= INT_MAX -> sumOptimal h = Some s ->
  s <= 21 -> t <= 231 /\ 0 <= s.
Proof.
  intros Ht Hmax Hs H21.
  destruct (sumOptimal_value h t Ht Hmax) as (j & Hj & Hsum & _ & _).
  pose proof (nominalTotal_aces h t Ht). pose proof (countAces_nonneg h).
  assert (Es : s = t - 10 * j) by congruence. lia.
Qed.

(** A card on top of a sum of at most 21 gives a sum of at most 21, or of
    at most ten more than before. *)
Lemma sumOptimal_snoc (h : Hand) (c : Card) (t s : Z) :
  nominalTotal h = Some t -> t <= INT_MAX -> sumOptimal h = Some s ->
  s <= 21 ->
  (isAce c = true /\ getGameValue c = Some 11) \/
  (isAce c = false /\ exists v, getGameValue c = Some v /\ 2 <= v <= 10) ->
  exists t1 s1,
    nominalTotal (h ++ [c]) = Some t1 /\ t1 <= INT_MAX /\
    sumOptimal (h ++ [c]) = Some s1 /\ (s1 <= 21 \/ s1 <= s + 10).
Proof.
  intros Ht Hmax Hs H21 Hc.
  destruct (nominalTotal_small h t s Ht Hmax Hs H21) as [Hsmall _].
  destruct (sumOptimal_value h t Ht Hmax) as (j & Hj & Hsum & _ & _).
  assert (Es : s = t - 10 * j) by congruence.
  assert (Hv : exists v, getGameValue c = Some v /\ 2 <= v <= 11 /\
                         (isAce c = true -> v = 11) /\
                         (isAce c = false -> v <= 10)).
  { destruct Hc as [[Ha Hv]|[Ha (v & Hv & Hr)]].
    - exists 11. repeat split; try lia; try exact Hv. congruence.
    - exists v. repeat split; try lia; try exact Hv. congruence. }
  destruct Hv as (v & Hv & Hr & Hace & Hplain).
  pose proof (nominalTotal_snoc h c t v Ht Hv) as Ht1.
  assert (Hmax1 : t + v <= INT_MAX) by (unfold INT_MAX; lia).
  destruct (sumOptimal_value (h ++ [c]) (t + v) Ht1 Hmax1)
    as (j1 & Hj1 & Hsum1 & Hstop1 & _).
  exists (t + v), (t + v - 10 * j1).
  split; [exact Ht1|]. split; [exact Hmax1|]. split; [exact Hsum1|].
  rewrite countAces_snoc in Hj1, Hstop1.
  destruct Hstop1 as [Hle|Hall]; [left; exact Hle|].
  right. destruct (isAce c).
  - specialize (Hace eq_refl). lia.
  - specialize (Hplain eq_refl). lia.
Qed.

(** X15: when the dealer's loop starts below 17 and stops, the hand it
    leaves has an optimal sum from 17 to 26. *)
Theorem dealerTurn_range (fuel : nat) (rng : Rng) :
  forall (hand hand' : Hand) (pos pos' : nat) (t s : Z),
    nominalTotal hand = Some t -> t <= INT_MAX ->
    sumOptimal hand = Some s -> s < 17 ->
    dealerTurn fuel hand rng pos = Ret (hand', pos') ->
    exists s', sumOptimal hand' = Some s' /\ 17 <= s' <= 26.
Proof.
  induction fuel as [|fuel IH];
    intros hand hand' pos pos' t s Ht Hmax Hs Hlow Hrun;
    rewrite dealerTurn_unfold, Hs in Hrun;
    destruct (Z.ltb_spec s 17) as [_|Hbad]; try lia; [discriminate|].
  destruct (sumOptimal_snoc hand (fst (Card_random rng pos)) t s
              Ht Hmax Hs ltac:(lia) (Card_random_cases rng pos))
    as (t1 & s1 & Ht1 & Hmax1 & Hs1 & Hbound).
  destruct (Z_lt_le_dec s1 17) as [Hlt|Hge].
  - eapply IH; eassumption.
  - rewrite dealerTurn_unfold, Hs1 in Hrun.
    destruct (Z.ltb_spec s1 17) as [Hbad|_]; [lia|].
    inversion Hrun; subst. exists s1. split; [exact Hs1|]. lia.
Qed.

Lemma dealerTurn_range_witness :
  exists s',
    sumOptimal [card "A"; card "5"; mkCard "K" "hearts";
                mkCard "K" "hearts"] = Some s' /\
    17 <= s' <= 26.
Proof.
  apply (dealerTurn_range 3 (fun _ => 12%N) [card "A"; card "5"]
           [card "A"; card "5"; mkCard "K" "hearts"; mkCard "K" "hearts"]
           0 4 16 16).
  - reflexivity.
  - unfold INT_MAX. lia.
  - reflexivity.
  - lia.
  - vm_compute. reflexivity.
Defined.

(** ** The player's turn *)

(** X16: when the player's loop starts below 21 and stops, the hand has
    the old cards first; if the loop ended the round itself the optimal
    sum is from 21 to 30, and if the player stood it is below 21. *)
Theorem playerTurn_range (fuel : nat) (rng : Rng) :
  forall (hand hand' : Hand) (input input' : list string) (pos pos' : nat)
         (concluded : bool) (t s : Z),
    nominalTotal hand = Some t -> t <= INT_MAX ->
    sumOptimal hand = Some s -> s < 21 ->
    playerTurn fuel hand input rng pos
    = Ret (concluded, hand', input', pos') ->
    exists s' new,
      sumOptimal hand' = Some s' /\ hand' = hand ++ new /\
      (if concluded then 21 <= s' <= 30 else s' < 21).
Proof.
  induction fuel as [|fuel IH];
    intros hand hand' input input' pos pos' concluded t s Ht Hmax Hs Hlow
           Hrun; cbn [playerTurn] in Hrun; [discriminate|].
  destruct (requestHitOrStand input) as [[answer input1]| | | |];
    cbn [bindRun stopped] in Hrun; try discriminate.
  destruct (String.eqb answer "hit").
  - rewrite Hs in Hrun. cbn [liftOpt bindRun] in Hrun.
    destruct (Z.ltb_spec s 21) as [_|Hbad]; [|lia].
    rewrite addRandomCards_one in Hrun.
    destruct (sumOptimal_snoc hand (fst (Card_random rng pos)) t s
                Ht Hmax Hs ltac:(lia) (Card_random_cases rng pos))
      as (t1 & s1 & Ht1 & Hmax1 & Hs1 & Hbound).
    rewrite Hs1 in Hrun. cbn [liftOpt bindRun] in Hrun.
    rewrite Z.geb_leb in Hrun.
    destruct (Z.leb_spec 21 s1) as [Hge|Hlt].
    + inversion Hrun; subst. exists s1, [fst (Card_random rng pos)].
      split; [exact Hs1|]. split; [reflexivity|]. lia.
    + destruct (IH _ _ _ _ _ _ _ _ _ Ht1 Hmax1 Hs1 Hlt Hrun)
        as (s' & new & Hs' & Hnew & Hc).
      exists s', (fst (Card_random rng pos) :: new).
      split; [exact Hs'|]. split; [|exact Hc].
      rewrite Hnew, <- app_assoc. reflexivity.
  - inversion Hrun; subst. exists s, [].
    split; [exact Hs|]. split; [rewrite app_nil_r; reflexivity|exact Hlow].
Qed.

Lemma playerTurn_range_witness :
  exists s' new,
    sumOptimal [card "9"; card "5"; mkCard "K" "hearts"] = Some s' /\
    [card "9"; card "5"; mkCard "K" "hearts"] = [card "9"; card "5"] ++ new
    /\ (if true then 21 <= s' <= 30 else s' < 21).
Proof.
  apply (playerTurn_range 3 (fun _ => 12%N) [card "9"; card "5"]
           [card "9"; card "5"; mkCard "K" "hearts"]
           ["x"; "h"; "s"] ["s"] 0 2 true 14 14).
  - reflexivity.
  - unfold INT_MAX. lia.
  - reflexivity.
  - lia.
  - vm_compute. reflexivity.
Defined.

(** X17: [requestHitOrStand] passes over every token that is not h, H,
    s or S and answers for the first one that is: hit for h or H, stand
    for s or S. It waits for more input exactly when no token is one of
    them, and it never stops the program. *)
Theorem requestHitOrStand_spec (input : list string) :
  match requestHitOrStand input with
  | Ret (answer, rest) =>
      exists skipped tok,
        input = skipped ++ tok :: rest /\
        Forall (fun x => ~ In x hitOrStandTokens) skipped /\
        ((In tok ["h"; "H"] /\ answer = "hit") \/
         (In tok ["s"; "S"] /\ answer = "stand"))
  | Blocked => Forall (fun x => ~ In x hitOrStandTokens) input
  | _ => False
  end.
Proof.
  induction input as [|userInput more IH]; cbn [requestHitOrStand].
  - constructor.
  - destruct (String.eqb_spec userInput "h") as [->|Nh]; cbn [orb].
    { exists [], "h". split; [reflexivity|]. split; [constructor|].
      left. split; [cbn [In]; auto|reflexivity]. }
    destruct (String.eqb_spec userInput "H") as [->|NH]; cbn [orb].
    { exists [], "H". split; [reflexivity|]. split; [constructor|].
      left. split; [cbn [In]; auto|reflexivity]. }
    destruct (String.eqb_spec userInput "s") as [->|Ns]; cbn [orb].
    { exists [], "s". split; [reflexivity|]. split; [constructor|].
      right. split; [cbn [In]; auto|reflexivity]. }
    destruct (String.eqb_spec userInput "S") as [->|NS]; cbn [orb].
    { exists [], "S". split; [reflexivity|]. split; [constructor|].
      right. split; [cbn [In]; auto|reflexivity]. }
    assert (Hskip : ~ In userInput hitOrStandTokens).
    { unfold hitOrStandTokens. cbn [In]. intros H.
      repeat (destruct H as [H|H]; [congruence|]). exact H. }
    destruct (requestHitOrStand more) as [[answer rest]| | | |];
      try contradiction.
    + destruct IH as (skipped & tok & Hin & Hall & Hans).
      exists (userInput :: skipped), tok. rewrite Hin.
      split; [reflexivity|]. split; [constructor; assumption|exact Hans].
    + constructor; assumption.
Qed.

(** ** The bet prompt *)

Lemma stoi_digit_first (c : ascii) (r : string) (v : Z) :
  isdigit c = true -> stoi (String c r) = Parsed v -> 0 <= v <= INT_MAX.
Proof.
  intros Hdig. pose proof (isdigit_range c Hdig) as [Hlo Hhi].
  assert (Hsp : isspace c = false).
  { unfold isspace.
    destruct (Z.eqb_spec (Z.of_N (N_of_ascii c)) 32); [lia|].
    destruct (Z.leb_spec (Z.of_N (N_of_ascii c)) 13); [lia|].
    rewrite andb_false_r. reflexivity. }
  assert (Hval : 0 <= digitValue c) by (unfold digitValue; lia).
  unfold stoi. simpl skipSpaces. rewrite Hsp.
  destruct c as [[] [] [] [] [] [] [] []];
    try (vm_compute in Hlo; exfalso; apply Hlo; reflexivity);
    try (vm_compute in Hhi; exfalso; apply Hhi; reflexivity);
    cbn [readDigits]; rewrite Hdig;
    match goal with
    | |- context [readDigits ?t ?a ?b] =>
        pose proof (readDigits_ge t a b ltac:(lia)) as Hn;
        destruct (readDigits t a b) as [w seen]
    end; cbn [fst] in Hn;
    destruct seen; cbn [negb]; try discriminate;
    match goal with
    | |- context [if ?b then _ else _] => destruct b eqn:Hrange
    end; intros E; inversion E; subst;
    apply andb_prop in Hrange; destruct Hrange as [_ Hrange];
    apply Z.leb_le in Hrange; lia.
Qed.

Lemma stoi_digits (betStr : string) (v : Z) :
  forallb isdigit (chars betStr) = true -> stoi betStr = Parsed v ->
  0 <= v <= INT_MAX.
Proof.
  destruct betStr as [|c r]; [intros _ H; discriminate H|].
  unfold chars. cbn [list_ascii_of_string forallb]. intros H.
  apply andb_prop in H. destruct H as [Hc _].
  apply stoi_digit_first. exact Hc.
Qed.

(** X18: when [requestBetAmount] returns, the bet is the number written
    by the last token it read, that token is made of digits only, every
    token after it is left for the next prompt, and the bet is at least
    1 and at most the balance. *)
Theorem requestBetAmount_returns (money : Q) (input : list string) :
  forall bet rest,
    requestBetAmount money input = Ret (bet, rest) ->
    exists skipped betStr,
      input = skipped ++ betStr :: rest /\
      forallb isdigit (chars betStr) = true /\
      stoi betStr = Parsed bet /\
      1 <= bet <= INT_MAX /\ (inject_Z bet <= money)%Q.
Proof.
  induction input as [|betStr more IH]; intros bet rest;
    cbn [requestBetAmount]; [discriminate|].
  cbv zeta.
  assert (Hnext : requestBetAmount money more = Ret (bet, rest) ->
                  exists skipped betStr0,
                    betStr :: more = skipped ++ betStr0 :: rest /\
                    forallb isdigit (chars betStr0) = true /\
                    stoi betStr0 = Parsed bet /\
                    1 <= bet <= INT_MAX /\ (inject_Z bet <= money)%Q).
  { intros H. destruct (IH _ _ H) as (skipped & tok & Hin & Hrest).
    exists (betStr :: skipped), tok. rewrite Hin.
    split; [reflexivity|exact Hrest]. }
  destruct (forallb isdigit (chars betStr)) eqn:Hdig; [|exact Hnext].
  destruct (stoi betStr) as [v| |] eqn:Hs; try discriminate.
  pose proof (stoi_digits betStr v Hdig Hs) as Hv.
  rewrite (to_unsigned_small v Hv).
  destruct (Z.ltb_spec v 1) as [Hsmall|Hone]; [exact Hnext|].
  destruct (Qle_bool (inject_Z v) money) eqn:Hle; cbn [negb];
    [|exact Hnext].
  intros E. inversion E; subst. exists [], betStr.
  split; [reflexivity|]. split; [exact Hdig|]. split; [exact Hs|].
  split; [lia|]. apply Qle_bool_iff. exact Hle.
Qed.

Lemma requestBetAmount_returns_witness :
  exists skipped betStr,
    ["abc"; "0"; "11"; "007"; "h"] = skipped ++ betStr :: ["h"] /\
    forallb isdigit (chars betStr) = true /\
    stoi betStr = Parsed 7 /\
    1 <= 7 <= INT_MAX /\ (inject_Z 7 <= 10)%Q.
Proof.
  apply (requestBetAmount_returns 10 ["abc"; "0"; "11"; "007"; "h"] 7 ["h"]).
  reflexivity.
Defined.

(** X19: with a balance below 1 the bet prompt accepts nothing: whatever
    is typed, it never returns a bet. *)
Theorem requestBetAmount_broke (money : Q) (input : list string) :
  (money < 1)%Q ->
  match requestBetAmount money input with
  | Ret _ => False
  | _ => True
  end.
Proof.
  intros Hbroke.
  destruct (requestBetAmount money input) as [[bet rest]| | | |] eqn:Hret;
    try exact I.
  apply requestBetAmount_accepts in Hret. destruct Hret as [Hone Hle].
  apply inject_Z_ge_1 in Hone. lra.
Qed.

Lemma requestBetAmount_broke_witness :
  match requestBetAmount (1 # 2) ["1"; "0"; "5"] with
  | Ret _ => False
  | _ => True
  end.
Proof.
  apply (requestBetAmount_broke (1 # 2) ["1"; "0"; "5"]).
  reflexivity.
Defined.

(** ** The winner *)

(** X20: the last [else] of the chain that finds the winner, which
    reports that the winner is not defined, is never reached. *)
Theorem winnerUndecided_never (playerSum dealerSum : Z) :
  winnerUndecided playerSum dealerSum = false.
Proof.
  unfold winnerUndecided.
  destruct (Z.gtb_spec playerSum 21); [reflexivity|].
  destruct (Z.gtb_spec dealerSum 21); [reflexivity|].
  destruct (Z.gtb_spec playerSum dealerSum);
    destruct (Z.ltb_spec playerSum 21);
    destruct (Z.gtb_spec dealerSum playerSum);
    destruct (Z.ltb_spec dealerSum 21);
    destruct (Z.eqb_spec playerSum 21);
    destruct (Z.eqb_spec dealerSum 21);
    destruct (Z.eqb_spec dealerSum playerSum);
    try reflexivity; lia.
Qed.

(** X21: what the chain decides. A player above 21 loses, whatever the
    dealer holds; otherwise a dealer above 21 loses; otherwise the higher
    sum wins; equal sums tie, except at 21 where a hand of exactly two
    cards beats a longer one. The blackjack flag is set exactly when the
    winner holds 21 in two cards and the dealer is not above 21. *)
Theorem decideWinner_table (p d ps ds : Z) :
  let v := decideWinner p d ps ds in
  (21 < p -> v = mkVerdict false true false) /\
  (p <= 21 -> 21 < d -> v = mkVerdict true false false) /\
  (d < p -> p <= 21 ->
   v = mkVerdict true false ((p =? 21) && (ps =? 2))) /\
  (p < d -> d <= 21 ->
   v = mkVerdict false true ((d =? 21) && (ds =? 2))) /\
  (p = d -> p < 21 -> v = mkVerdict false false false) /\
  (p = 21 -> d = 21 ->
   v = mkVerdict ((ps =? 2) && negb (ds =? 2))
                 (negb (ps =? 2) && (ds =? 2))
                 (negb (Bool.eqb (ps =? 2) (ds =? 2)))).
Proof.
  cbv zeta. unfold decideWinner.
  destruct (Z.gtb_spec p 21);
    [repeat split; intros; try lia; reflexivity|].
  destruct (Z.gtb_spec d 21);
    [repeat split; intros; try lia; reflexivity|].
  destruct (Z.gtb_spec p d);
    destruct (Z.ltb_spec p 21);
    destruct (Z.gtb_spec d p);
    destruct (Z.ltb_spec d 21);
    destruct (Z.eqb_spec p 21);
    destruct (Z.eqb_spec d 21);
    destruct (Z.eqb_spec d p);
    try lia; cbn [andb negb];
    repeat split; intros; try lia;
    destruct (ps =? 2), (ds =? 2); reflexivity.
Qed.

(** ** A whole round *)

Lemma sumOptimal_single (c : Card) :
  (isAce c = true /\ getGameValue c = Some 11) \/
  (isAce c = false /\ exists v, getGameValue c = Some v /\ 2 <= v <= 10) ->
  exists v, sumOptimal [c] = Some v /\ 2 <= v <= 11.
Proof.
  intros Hc.
  assert (Hv : exists v, getGameValue c = Some v /\ 2 <= v <= 11).
  { destruct Hc as [[_ Hv]|[_ (v & Hv & Hr)]];
      [exists 11|exists v]; split; try assumption; lia. }
  destruct Hv as (v & Hv & Hr).
  assert (Ht : nominalTotal [c] = Some (v + 0)).
  { cbn [nominalTotal]. rewrite Hv. reflexivity. }
  destruct (sumOptimal_value [c] (v + 0) Ht ltac:(unfold INT_MAX; lia))
    as (j & Hj & Hsum & _ & Hbefore).
  assert (Hj0 : j = 0).
  { destruct (Z.eq_dec j 0) as [E|N]; [exact E|].
    specialize (Hbefore 0). lia. }
  subst j. exists v. split; [|exact Hr].
  rewrite Hsum. f_equal. lia.
Qed.

Lemma decideWinner_21_low (d ds : Z) :
  d <= 11 -> decideWinner 21 d 2 ds = mkVerdict true false true.
Proof.
  intros Hd. unfold decideWinner.
  destruct (Z.gtb_spec d 21); [lia|].
  destruct (Z.gtb_spec 21 d); [|lia].
  destruct (Z.gtb_spec d 21); [lia|].
  destruct (Z.ltb_spec d 21); [|lia].
  destruct (Z.eqb_spec d 21); [lia|].
  reflexivity.
Qed.

(** X22: when the two cards dealt to the player make 21, the round is
    settled at once, on the dealer's single card: no input is read, the
    dealer draws nothing, and the player is paid two and a half times the
    bet. *)
Theorem dealt_blackjack_paid (fuel : nat) (g : Blackjack)
  (input : list string) (rng : Rng) (pos : nat) :
  playerHand g = [] -> dealerHand g = [] ->
  sumOptimal [fst (Card_random rng (2 + pos));
              fst (Card_random rng (4 + pos))] = Some 21 ->
  exists g2,
    resolveRound fuel g input rng pos = Ret (g2, input, (6 + pos)%nat) /\
    (playerMoney g2 == playerMoney g + thisRoundBet g * (5 # 2))%Q /\
    thisRoundBet g2 = thisRoundBet g /\
    dealerHand g2 = [fst (Card_random rng pos)] /\
    playerHand g2 = [fst (Card_random rng (2 + pos));
                     fst (Card_random rng (4 + pos))].
Proof.
  intros Hp Hd H21. unfold resolveRound.
  rewrite !addRandomCards_one, Hp, Hd. cbn [app]. cbv zeta.
  cbn [Nat.add] in H21. rewrite H21. cbn [liftOpt bindRun].
  change (21 =? 21) with true. cbv iota.
  destruct (sumOptimal_single _ (Card_random_cases rng pos))
    as (v & Hv & Hr).
  unfold concludeWith, concludeRound, roundVerdict.
  cbn [playerHand dealerHand]. rewrite Hv, H21.
  rewrite !to_signed_small by (unfold INT_MAX; lia).
  change (getSize [fst (Card_random rng (S (S pos)));
                   fst (Card_random rng (S (S (S (S pos)))))]) with 2.
  rewrite decideWinner_21_low by lia.
  cbn [liftOpt bindRun]. unfold settle, payout.
  cbn [wonWithBlackjack playerMoney thisRoundBet playerHand dealerHand].
  eexists. split; [reflexivity|].
  cbn [playerMoney thisRoundBet playerHand dealerHand Nat.add].
  repeat split. lra.
Qed.

Lemma dealt_blackjack_paid_witness :
  exists g2,
    resolveRound 5 (mkBlackjack 6 4 [] []) ["q"]
      (rngOf [9; 0; 0; 0; 12; 0]%N) 0
    = Ret (g2, ["q"], (6 + 0)%nat) /\
    (playerMoney g2
     == playerMoney (mkBlackjack 6 4 [] [])
        + thisRoundBet (mkBlackjack 6 4 [] []) * (5 # 2))%Q /\
    thisRoundBet g2 = thisRoundBet (mkBlackjack 6 4 [] []) /\
    dealerHand g2 = [fst (Card_random (rngOf [9; 0; 0; 0; 12; 0]%N) 0)] /\
    playerHand g2
    = [fst (Card_random (rngOf [9; 0; 0; 0; 12; 0]%N) (2 + 0));
       fst (Card_random (rngOf [9; 0; 0; 0; 12; 0]%N) (4 + 0))].
Proof.
  apply (dealt_blackjack_paid 5 (mkBlackjack 6 4 [] []) ["q"]
           (rngOf [9; 0; 0; 0; 12; 0]%N) 0).
  - reflexivity.
  - reflexivity.
  - reflexivity.
Defined.

(** X23: a round that is played to its end leaves the bet as it was
    placed, a whole number from 1 to the balance before the round, and
    a balance that is the old one less the bet, plus the bet, or plus one
    and a half times the bet. *)
Theorem round_net_result (fuel : nat) (g g1 g2 : Blackjack)
  (input input1 input2 : list string) (rng : Rng) (pos pos2 : nat) :
  placeBet g input = Ret (g1, input1) ->
  resolveRound fuel g1 input1 rng pos = Ret (g2, input2, pos2) ->
  exists bet : Z,
    1 <= bet /\ (inject_Z bet <= playerMoney g)%Q /\
    thisRoundBet g2 = inject_Z bet /\
    ((playerMoney g2 == playerMoney g - inject_Z bet)%Q \/
     (playerMoney g2 == playerMoney g + inject_Z bet)%Q \/
     (playerMoney g2 == playerMoney g + inject_Z bet * (3 # 2))%Q).
Proof.
  intros Hbet Hres.
  apply placeBet_spec in Hbet. destruct Hbet as (bet & Hacc & Hm1 & Hb1).
  apply requestBetAmount_accepts in Hacc. destruct Hacc as [Hone Hle].
  apply resolveRound_pays in Hres.
  destruct Hres as (Hb2 & f & Hf & Hm2).
  exists bet. split; [exact Hone|]. split; [exact Hle|].
  split; [congruence|].
  rewrite Hm1, Hb1 in Hm2.
  destruct Hf as [-> | [-> | ->]]; [left|right; left|right; right];
    rewrite Hm2; ring.
Qed.

Lemma round_net_result_witness :
  exists bet : Z,
    1 <= bet /\ (inject_Z bet <= playerMoney Blackjack_new)%Q /\
    thisRoundBet
      (mkBlackjack 14 4 [mkCard "10" "hearts"; mkCard "9" "hearts"]
                   [mkCard "10" "hearts"; mkCard "7" "hearts"])
    = inject_Z bet /\
    ((playerMoney
        (mkBlackjack 14 4 [mkCard "10" "hearts"; mkCard "9" "hearts"]
                     [mkCard "10" "hearts"; mkCard "7" "hearts"])
      == playerMoney Blackjack_new - inject_Z bet)%Q \/
     (playerMoney
        (mkBlackjack 14 4 [mkCard "10" "hearts"; mkCard "9" "hearts"]
                     [mkCard "10" "hearts"; mkCard "7" "hearts"])
      == playerMoney Blackjack_new + inject_Z bet)%Q \/
     (playerMoney
        (mkBlackjack 14 4 [mkCard "10" "hearts"; mkCard "9" "hearts"]
                     [mkCard "10" "hearts"; mkCard "7" "hearts"])
      == playerMoney Blackjack_new + inject_Z bet * (3 # 2))%Q).
Proof.
  apply (round_net_result 20 Blackjack_new (mkBlackjack 6 4 [] [])
           (mkBlackjack 14 4 [mkCard "10" "hearts"; mkCard "9" "hearts"]
                        [mkCard "10" "hearts"; mkCard "7" "hearts"])
           ["4"; "s"; "q"] ["s"; "q"] ["q"]
           (rngOf [9; 0; 9; 0; 8; 0; 6; 0]%N) 0 8).
  - reflexivity.
  - reflexivity.
Defined.

(** ** The balance over a session *)

Lemma playRound_trace (rounds fuel : nat) (rng : Rng) :
  forall g input pos,
    balanceTrace (playerMoney g)
                 (fst (playRound rounds fuel g input rng pos)).
Proof.
  induction rounds as [|rounds IH]; intros g input pos;
    cbn [playRound]; [constructor|].
  destruct (placeBet _ input) as [[g1 input1]| | | |] eqn:Hbet;
    try (cbn [fst]; constructor).
  apply placeBet_spec in Hbet. destruct Hbet as (bet & Hacc & Hm1 & Hb1).
  apply requestBetAmount_accepts in Hacc. cbn [playerMoney] in Hacc, Hm1.
  destruct Hacc as [Hone Hle]. rewrite Hm1.
  destruct (resolveRound fuel g1 input1 rng pos)
    as [[[g2 input2] pos2]| | | |] eqn:Hres;
    try (cbn [fst]; constructor; assumption).
  apply resolveRound_pays in Hres. destruct Hres as (_ & f & Hf & Hm2).
  rewrite Hm1, Hb1 in Hm2.
  destruct (Qlt_bool (playerMoney g2) (1 # 1)) eqn:Hover.
  { cbn [fst]. apply (trace_round _ _ f bet []); try assumption.
    - intros H. contradiction.
    - constructor. }
  assert (Hrich : (1 <= playerMoney g2)%Q).
  { unfold Qlt_bool in Hover. apply negb_false_iff in Hover.
    apply Qle_bool_iff in Hover. exact Hover. }
  destruct (askNewRound input2) as [[[] input3]| | | |];
    try (cbn [fst]; apply (trace_round _ _ f bet []);
         [assumption|assumption|assumption|assumption
         |intros H; contradiction|constructor]).
  specialize (IH g2 input3 pos2).
  destruct (playRound rounds fuel g2 input3 rng pos2) as [log r].
  cbn [fst] in *. apply (trace_round _ _ f bet log); try assumption.
  intros _. exact Hrich.
Qed.

(** X24: in every run of the game the balance starts at 10 and then
    moves round by round: down by a bet that is a whole number from 1 to
    the balance, then up by nothing, twice the bet or two and a half
    times the bet; and a new round is only started from a balance of at
    least 1. *)
Theorem launchGame_trace (rounds fuel : nat) (input : list string)
  (rng : Rng) :
  exists log,
    fst (launchGame rounds fuel input rng) = MONEY_AT_START :: log /\
    balanceTrace MONEY_AT_START log.
Proof.
  unfold launchGame.
  destruct (askNewRound input) as [[[] input1]| | | |];
    try (exists []; split; [reflexivity|constructor]).
  pose proof (playRound_trace rounds fuel rng Blackjack_new input1 0%nat)
    as Hlog.
  destruct (playRound rounds fuel Blackjack_new input1 rng 0) as [log r].
  exists log. split; [reflexivity|exact Hlog].
Qed.
